(** * vigorstats: a shallow embedding of [vigorstats.py]

    The script logs into a DrayTek Vigor 130 modem over telnet, issues two
    status commands and turns the two text blobs into a flat record.

    Modelling conventions.
    - A Python [str] is a [string]; each character is a code point below 256
      (the Latin-1 range), which is closed under [str.lower] and on which the
      [re] classes [\s], [\d], [\w] are the ones tabulated in [Py].
    - [int] is CPython's, with the default limit of 4300 digits on what
      it converts; the script does not change that limit.
    - [dict] is a [gmap string scalar]; insertion order is not modelled.
    - [await] points are sequenced: the coroutine is a state transformer over
      [st], which carries the peer's future behaviour, a clock in
      milliseconds, everything written, read, logged and printed, and the
      two locals that survive the [try] block.
    - A raised exception is the [Raise] result of the monad [M]. *)

From Stdlib Require Import ZArith NArith Ascii String List Bool Lia.
From stdpp Require Import base strings gmap.

Local Open Scope N_scope.

(** ** Python built-ins used by the script *)
Module Py.

Definition code (c : ascii) : N := N_of_ascii c.

Definition between (lo hi n : N) : bool := (lo <=? n) && (n <=? hi).

(** [\s] on a [str] pattern, equally [str.isspace]. *)
Definition is_space (c : ascii) : bool :=
  let n := code c in
  between 9 13 n || between 28 32 n || (n =? 133) || (n =? 160).

(** The white space [int] strips from both ends of its argument: the
    separators 28 to 31 are not part of it. *)
Definition is_int_space (c : ascii) : bool :=
  let n := code c in between 9 13 n || (n =? 32) || (n =? 133) || (n =? 160).

(** [\d]: decimal digits. *)
Definition is_digit (c : ascii) : bool := between 48 57 (code c).

(** [\w]: [str.isalnum] or the underscore. *)
Definition is_word (c : ascii) : bool :=
  let n := code c in
  between 48 57 n || between 65 90 n || (n =? 95) || between 97 122 n
  || (n =? 170) || between 178 179 n || (n =? 181) || between 185 186 n
  || between 188 190 n || between 192 214 n || between 216 246 n
  || between 248 255 n.

(** [str.lower], one character. *)
Definition lower_char (c : ascii) : ascii :=
  let n := code c in
  if between 65 90 n || between 192 214 n || between 216 222 n
  then ascii_of_N (n + 32) else c.

(** [str.lower] on a text of code points below 256, where it is this
    character-wise map. Beyond that range one character may lower to
    several (U+0130 does); such text is outside this embedding. *)
Fixpoint lower (s : string) : string :=
  match s with
  | EmptyString => EmptyString
  | String c s' => String (lower_char c) (lower s')
  end.

Fixpoint drop (n : nat) (s : string) : string :=
  match n, s with
  | O, _ => s
  | S _, EmptyString => EmptyString
  | S k, String _ s' => drop k s'
  end.

(** [s.startswith(t)] *)
Definition startswith (s t : string) : bool := String.prefix t s.

(** [s.endswith(t)] *)
Fixpoint endswith (s t : string) : bool :=
  String.eqb s t ||
  match s with
  | EmptyString => false
  | String _ s' => endswith s' t
  end.

(** [t in s] *)
Fixpoint contains (s t : string) : bool :=
  startswith s t ||
  match s with
  | EmptyString => false
  | String _ s' => contains s' t
  end.

(** [s.replace(old, new)] scans left to right and never looks again at
    what it has already replaced. [skip] counts the characters of the
    current occurrence of [old] still to be passed over. *)
Fixpoint replace_from (old new : string) (skip : nat) (s : string) : string :=
  match s with
  | EmptyString => EmptyString
  | String c s' =>
      match skip with
      | S k => replace_from old new k s'
      | O =>
          if startswith s old
          then new +:+ replace_from old new (String.length old - 1) s'
          else String c (replace_from old new 0 s')
      end
  end.

(** With an empty [old], [new] goes before every character and at the end. *)
Fixpoint replace_empty (new s : string) : string :=
  new +:+ match s with
          | EmptyString => EmptyString
          | String c s' => String c (replace_empty new s')
          end.

Definition replace (s old new : string) : string :=
  match old with
  | EmptyString => replace_empty new s
  | _ => replace_from old new 0 s
  end.

(** Truth value of a [str]. *)
Definition truthy (s : string) : bool :=
  match s with EmptyString => false | _ => true end.

Fixpoint forall_chars (P : ascii -> bool) (s : string) : bool :=
  match s with
  | EmptyString => true
  | String c s' => P c && forall_chars P s'
  end.

(** *** [int(str)], base 10

    White space is stripped from both ends, one sign may lead, and the
    digits may be separated by single underscores. A text with more than
    [max_str_digits] digits, leading zeros counted and underscores not, is
    refused like any other text [int] cannot read. *)

Fixpoint lstrip (P : ascii -> bool) (s : string) : string :=
  match s with
  | String c s' => if P c then lstrip P s' else s
  | EmptyString => EmptyString
  end.

(** [rstrip] answers [None] while everything to the right is strippable. *)
Fixpoint rstrip_aux (P : ascii -> bool) (s : string) : option string :=
  match s with
  | EmptyString => None
  | String c s' =>
      match rstrip_aux P s' with
      | Some r => Some (String c r)
      | None => if P c then None else Some (String c EmptyString)
      end
  end.

Definition rstrip (P : ascii -> bool) (s : string) : string :=
  default EmptyString (rstrip_aux P s).

Definition digit_val (c : ascii) : Z := Z.of_N (code c - 48).

(** Digits with single underscores between them, most significant first;
    [acc] is the value read so far and [prev] tells whether the previous
    character was a digit. *)
Fixpoint digits (acc : Z) (prev : bool) (s : string) : option Z :=
  match s with
  | EmptyString => if prev then Some acc else None
  | String c s' =>
      if is_digit c then digits (10 * acc + digit_val c)%Z true s'
      else if (code c =? 95) && prev then
        match s' with
        | String d _ => if is_digit d then digits acc false s' else None
        | EmptyString => None
        end
      else None
  end.

(** The default of [sys.get_int_max_str_digits()]; the script does not
    change it. *)
Definition max_str_digits : nat := 4300.

Fixpoint count_digits (s : string) : nat :=
  match s with
  | EmptyString => O
  | String c s' => ((if is_digit c then 1 else 0) + count_digits s')%nat
  end.

Definition within_limit (t : string) (r : option Z) : option Z :=
  if (count_digits t <=? max_str_digits)%nat then r else None.

Definition int (s : string) : option Z :=
  match rstrip is_int_space (lstrip is_int_space s) with
  | String c t =>
      if code c =? 43 then within_limit t (digits 0 false t)
      else if code c =? 45 then within_limit t (Z.opp <$> digits 0 false t)
      else within_limit (String c t) (digits 0 false (String c t))
  | EmptyString => None
  end.

(** [s * n] *)
Fixpoint times (s : string) (n : nat) : string :=
  match n with
  | O => EmptyString
  | S k => s +:+ times s k
  end.

(** [bool(str)] *)
Definition bool (s : string) : Datatypes.bool := truthy s.

End Py.

(** ** The fragment of [re] the two patterns need *)
Module Re.

Inductive cclass := Space | Digit | Word.

Definition in_class (k : cclass) (c : ascii) : bool :=
  match k with
  | Space => Py.is_space c
  | Digit => Py.is_digit c
  | Word => Py.is_word c
  end.

(** [Lit l] is the literal text [l], [One k] a class, [Plus k] a greedy
    [k+] and [Group k] the capturing [(k+)]. *)
Inductive atom :=
| Lit (l : string)
| One (k : cclass)
| Plus (k : cclass)
| Group (k : cclass).

Section Greedy.
Context {A : Type} (k : cclass) (rest : string -> option A).

(** Take as many characters of the class as possible, giving back one
    at a time while the rest of the pattern fails. *)
Fixpoint plus (s : string) : option A :=
  match s with
  | String c s' =>
      if in_class k c
      then match plus s' with
           | Some r => Some r
           | None => rest s'
           end
      else None
  | EmptyString => None
  end.

Fixpoint group (s : string) : option (string * A) :=
  match s with
  | String c s' =>
      if in_class k c
      then match group s' with
           | Some (cap, r) => Some (String c cap, r)
           | None => pair (String c EmptyString) <$> rest s'
           end
      else None
  | EmptyString => None
  end.
End Greedy.

(** Match the whole pattern at the start of [s]; the answer lists the
    captured groups in order. *)
Fixpoint match_here (p : list atom) (s : string) : option (list string) :=
  match p with
  | [] => Some []
  | Lit l :: p' =>
      if Py.startswith s l then match_here p' (Py.drop (String.length l) s)
      else None
  | One k :: p' =>
      match s with
      | String c s' => if in_class k c then match_here p' s' else None
      | EmptyString => None
      end
  | Plus k :: p' => plus k (match_here p') s
  | Group k :: p' =>
      match group k (match_here p') s with
      | Some (cap, gs) => Some (cap :: gs)
      | None => None
      end
  end.

(** [re.search]: the match at the leftmost position that has one. *)
Fixpoint search (p : list atom) (s : string) : option (list string) :=
  match match_here p s with
  | Some gs => Some gs
  | None =>
      match s with
      | String _ s' => search p s'
      | EmptyString => None
      end
  end.

End Re.

(** ** The field tables *)

Inductive coercion := CoerceInt | CoerceBool.

Record field := Field {
  label : string;
  unit : option string;
  desc : option string;
  coerce : option coercion
}.

Definition plain (l : string) : field := Field l None None None.
Definition counter (l : string) : field := Field l None None (Some CoerceInt).
Definition measure (l u : string) : field := Field l (Some u) None (Some CoerceInt).
Definition flag (l : string) : field := Field l None None (Some CoerceBool).
Definition described (l d : string) : field := Field l None (Some d) (Some CoerceInt).

Definition VIGOR_130_VALUES : list field := [
  plain "Running Mode";
  plain "State";
  plain "Power Management Mode";
  measure "DS Actual Rate" "bps";
  measure "DS Attainable Rate" "bps";
  counter "DS Interleave Depth";
  measure "NE Current Attenuation" "dB";
  counter "NE CRC Count";
  counter "NE ES Count";
  measure "US Actual Rate" "bps";
  measure "US Attainable Rate" "bps";
  counter "US Interleave Depth";
  measure "Cur SNR Margin" "dB";
  counter "FE CRC Count";
  counter "FE  ES Count";
  measure "Far Current Attenuation" "dB";
  measure "Far SNR Margin" "dB";
  counter "Xdsl Reset Times";
  counter "Xdsl Link  Times"
].

Definition VIGOR_130_MORE_VALUES : list field := [
  flag "Trellis";
  flag "Bitswap";
  flag "ReTxEnable";
  flag "VirtualNoise";
  described "LOS" "Loss Of Signal Count";
  described "LOF" "Loss Of Frame Count";
  described "LPR" "Loss Of Power Count";
  described "LOM" "Loss Of Margin Count";
  described "SosSuccess" "Successful SOS Procedure Count";
  described "NCD" "No Cell Delineation Failure Count";
  described "LCD" "Loss Of Cell Delineation Failure Count";
  described "FECS" "Forward Error Correction Seconds";
  described "ES" "Errored Seconds";
  described "SES" "Severely Errored Seconds";
  described "LOSS" "Loss Of Signal Seconds";
  described "UAS" "Unavailable Seconds";
  described "HECError" "Header Error Check Error Count";
  described "CRC" "CRC Error Count";
  described "INP" "Impulse Noise Protection";
  described "InterleaveDelay" "Interleave Delay";
  counter "NFEC";
  counter "RFEC";
  counter "LSYMB";
  counter "INTLVBLOCK"
].

(** ** Keys *)

(** [value["label"].lower().replace("  ", " ").replace(" ", "_")] *)
Definition label_key (l : string) : string :=
  Py.replace (Py.replace (Py.lower l) "  " " ") " " "_".

(** [desc.lower().replace(" ", "_")] *)
Definition desc_key (d : string) : string :=
  Py.replace (Py.lower d) " " "_".

(** The key of a paired field: the description wins when there is one and
    it is not empty. *)
Definition paired_key (value : field) : string :=
  match desc value with
  | Some d => if Py.truthy d then desc_key d else label_key (label value)
  | None => label_key (label value)
  end.

Definition near (key : string) : string := key +:+ "_near".
Definition far (key : string) : string := key +:+ "_far".

(** The normalizer as the specification words it: lower case, every run of
    two or more spaces collapsed to one space, spaces turned into
    underscores. *)
Module Spec.

Fixpoint collapse_runs (s : string) : string :=
  match s with
  | EmptyString => EmptyString
  | String c s' =>
      if Ascii.eqb c " " && Py.startswith s' " "
      then collapse_runs s'
      else String c (collapse_runs s')
  end.

Fixpoint underscores (s : string) : string :=
  match s with
  | EmptyString => EmptyString
  | String c s' =>
      String (if Ascii.eqb c " " then "_" else c) (underscores s')
  end.

Definition normalize (text : string) : string :=
  underscores (collapse_runs (Py.lower text)).

End Spec.

(** ** Patterns *)

(** ["{}\s+:\s+(\w+)\s".format(label)], with ["+" + unit] appended when the
    field has a unit: the final [\s] then becomes [\s+] and the unit must
    follow. Labels and units contain no character that [re] treats
    specially, so each stands for itself. *)
Definition basic_regex (value : field) : list Re.atom :=
  [Re.Lit (label value); Re.Plus Re.Space; Re.Lit ":"; Re.Plus Re.Space;
   Re.Group Re.Word] ++
  match unit value with
  | Some u => if Py.truthy u then [Re.Plus Re.Space; Re.Lit u]
              else [Re.One Re.Space]
  | None => [Re.One Re.Space]
  end.

(** ["{}\s+:\s+(\d+)\s+(\d+)".format(label)] *)
Definition paired_regex (value : field) : list Re.atom :=
  [Re.Lit (label value); Re.Plus Re.Space; Re.Lit ":"; Re.Plus Re.Space;
   Re.Group Re.Digit; Re.Plus Re.Space; Re.Group Re.Digit].

(** ** Exceptions, values and the state of a run *)

Inductive exn :=
| Exception (msg : string)
| ConnectionRefusedError
| ConnectionResetError
| TypeError
| UnboundLocalError
| ValueError
| IndexError
| CancelledError
| KeyboardInterrupt.

(** [except Exception] catches everything but the two that derive from
    [BaseException] directly. *)
Definition is_Exception (e : exn) : bool :=
  match e with
  | CancelledError | KeyboardInterrupt => false
  | _ => true
  end.

Inductive scalar :=
| VStr (s : string)
| VInt (n : Z)
| VBool (b : bool).

Inductive level := DEBUG | INFO | ERROR.

Inductive log_arg := ArgStr (s : string) | ArgLen (n : nat).

Definition log_record : Type := level * string * list log_arg.

(** What one [reader.read] will find: text that arrives after [latency]
    milliseconds, or an exception set on the stream after that time. When
    nothing is left the peer has closed and [read] answers the empty string
    at once. *)
Inductive read_event :=
| Recv (latency : N) (text : string)
| Fail (latency : N) (e : exn).

Record st := St {
  pending : list read_event;
  clock : N;
  written : list string;
  heard : list string;         (* what each [read] returned, in order *)
  log : list log_record;
  stdout : list (gmap string scalar);
  data : option string;        (* [None] is Python's [None] *)
  more_data : option string    (* [None]: the name is not bound yet *)
}.

Definition connected (peer : list read_event) : st :=
  St peer 0 [] [] [] [] None None.

Inductive res (A : Type) :=
| Ok (a : A)
| Raise (e : exn).
Arguments Ok {A} a.
Arguments Raise {A} e.

Definition is_Ok {A} (r : res A) : bool :=
  match r with Ok _ => true | Raise _ => false end.

Definition M (A : Type) : Type := st -> res A * st.

#[global] Instance M_ret : MRet M := fun A a s => (Ok a, s).

#[global] Instance M_bind : MBind M := fun A B f m s =>
  match m s with
  | (Ok a, s') => f a s'
  | (Raise e, s') => (Raise e, s')
  end.

Definition raise {A} (e : exn) : M A := fun s => (Raise e, s).

(** [try: body / except Exception: handler] *)
Definition try_except (body handler : M ()) : M () := fun s =>
  match body s with
  | (Raise e, s') => if is_Exception e then handler s' else (Raise e, s')
  | ok => ok
  end.

Definition tick (ms : N) (s : st) : st :=
  St (pending s) (clock s + ms) (written s) (heard s) (log s) (stdout s)
     (data s) (more_data s).

Definition set_pending (p : list read_event) (s : st) : st :=
  St p (clock s) (written s) (heard s) (log s) (stdout s) (data s) (more_data s).

Definition hear (text : string) (s : st) : st :=
  St (pending s) (clock s) (written s) (heard s ++ [text]) (log s) (stdout s)
     (data s) (more_data s).

(** [await reader.read(n)]: at most [n] characters, the rest stays
    buffered. *)
Definition read (n : nat) : M string := fun s =>
  match pending s with
  | [] => (Ok EmptyString, hear EmptyString s)
  | Recv latency text :: rest =>
      if (String.length text <=? n)%nat
      then (Ok text, hear text (set_pending rest (tick latency s)))
      else (Ok (String.substring 0 n text),
            hear (String.substring 0 n text)
              (set_pending (Recv 0 (Py.drop n text) :: rest)
                 (tick latency s)))
  | Fail latency e :: rest => (Raise e, set_pending rest (tick latency s))
  end.

(** [writer.write(text)] *)
Definition write (text : string) : M () := fun s =>
  (Ok (), St (pending s) (clock s) (written s ++ [text]) (heard s) (log s) (stdout s)
             (data s) (more_data s)).

(** [await asyncio.sleep(ms / 1000)] *)
Definition sleep (ms : N) : M () := fun s => (Ok (), tick ms s).

Definition logging (l : level) (msg : string) (args : list log_arg) : M () :=
  fun s =>
  (Ok (), St (pending s) (clock s) (written s) (heard s) (log s ++ [(l, msg, args)])
             (stdout s) (data s) (more_data s)).

(** [print(json.dumps(output))]; the serialised form is left out. *)
Definition print (output : gmap string scalar) : M () := fun s =>
  (Ok (), St (pending s) (clock s) (written s) (heard s) (log s) (stdout s ++ [output])
             (data s) (more_data s)).

Definition assign_data (v : option string) : M () := fun s =>
  (Ok (), St (pending s) (clock s) (written s) (heard s) (log s) (stdout s)
             v (more_data s)).

Definition assign_more_data (v : string) : M () := fun s =>
  (Ok (), St (pending s) (clock s) (written s) (heard s) (log s) (stdout s)
             (data s) (Some v)).

Definition CRLF : string := String "013" (String "010" EmptyString).

(** ** [read_until] *)

(** [retries] counts down to zero; [sleep] is in milliseconds (the default
    [0.2] is [200]). Each turn of the loop binds [data] to what this one
    [read] returned. *)
Fixpoint read_until (text : string) (retries : nat) (sleep_ms : N)
    : M string :=
  match retries with
  | O => raise (Exception "Did not find expected text")
  | S retries' =>
      chunk ← read 1024;
      if Py.endswith chunk text then mret chunk
      else _ ← sleep sleep_ms; read_until text retries' sleep_ms
  end.

Definition default_retries : nat := 5.
Definition default_sleep : N := 200.

(** ** [get_vigor_stats] *)

(** [coerce_fn(token)]: [int] raises [ValueError] on a token it cannot
    read. *)
Definition apply_coerce (c : option coercion) (token : string) : M scalar :=
  match c with
  | Some CoerceInt =>
      match Py.int token with
      | Some n => mret (VInt n)
      | None => raise ValueError
      end
  | Some CoerceBool => mret (VBool (Py.bool token))
  | None => mret (VStr token)
  end.

(** [match.group(i)] for [i >= 1] *)
Definition group (gs : list string) (i : nat) : M string :=
  match nth_error gs (i - 1) with
  | Some g => mret g
  | None => raise IndexError
  end.

(** The body of the [try] block. *)
Definition dialogue (username password : string) : M () :=
  _ ← logging DEBUG "Waiting for username request" [];
  _ ← read_until "Account:" default_retries default_sleep;
  _ ← logging DEBUG "Sending username" [];
  _ ← write (username +:+ CRLF);
  _ ← logging DEBUG "Waiting for password request" [];
  _ ← read_until "Password: " default_retries default_sleep;
  _ ← logging DEBUG "Sending password" [];
  _ ← write (password +:+ CRLF);
  _ ← logging DEBUG "Waiting for shell prompt" [];
  _ ← read_until "> " default_retries default_sleep;
  _ ← write ("vdsl status" +:+ CRLF);
  _ ← sleep 1000;
  d ← read 4096;
  _ ← assign_data (Some d);
  _ ← write ("vdsl status more" +:+ CRLF);
  _ ← sleep 1000;
  m ← read 8096;
  assign_more_data m.

(** One turn of the first [for] loop. *)
Definition basic_field (blob : string) (value : field)
    (output : gmap string scalar) : M (gmap string scalar) :=
  let key := label_key (label value) in
  if negb (Py.contains blob (label value)) then
    _ ← logging ERROR "Could not find %s in data" [ArgStr (label value)];
    mret output
  else
    match Re.search (basic_regex value) blob with
    | None =>
        _ ← logging ERROR "Did not find information in output: %s"
              [ArgStr (label value)];
        mret output
    | Some gs =>
        token ← group gs 1;
        converted ← apply_coerce (coerce value) token;
        mret (<[key := converted]> output)
    end.

(** One turn of the second [for] loop. *)
Definition paired_field (blob : string) (value : field)
    (output : gmap string scalar) : M (gmap string scalar) :=
  let key := paired_key value in
  match Re.search (paired_regex value) blob with
  | None =>
      _ ← logging ERROR "Did not find information in output: %s"
            [ArgStr (label value)];
      mret output
  | Some gs =>
      t1 ← group gs 1;
      near_end ← apply_coerce (coerce value) t1;
      t2 ← group gs 2;
      far_end ← apply_coerce (coerce value) t2;
      mret (<[far key := far_end]> (<[near key := near_end]> output))
  end.

Fixpoint for_each (body : field -> gmap string scalar -> M (gmap string scalar))
    (values : list field) (output : gmap string scalar)
    : M (gmap string scalar) :=
  match values with
  | [] => mret output
  | v :: values' => output' ← body v output; for_each body values' output'
  end.

(** Reading a local: [data] is always bound, [more_data] only once the
    [try] block got as far as assigning it. *)
Definition local_data : M (option string) := fun s => (Ok (data s), s).

Definition local_more_data : M string := fun s =>
  match more_data s with
  | Some more => (Ok more, s)
  | None => (Raise UnboundLocalError, s)
  end.

(** [len(blob)] raises [TypeError] on [None]; otherwise the blob is a [str],
    handed on together with its length. *)
Definition len (blob : option string) : M (string * nat) :=
  match blob with
  | Some text => mret (text, String.length text)
  | None => raise TypeError
  end.

(** Everything after the [try] statement up to the end of the second
    loop. *)
Definition parse : M (gmap string scalar) :=
  d ← local_data;
  '(blob, n) ← len d;
  _ ← logging INFO "Parsing %d bytes of basic output" [ArgLen n];
  output ← for_each (basic_field blob) VIGOR_130_VALUES ∅;
  m ← local_more_data;
  '(more, n') ← len (Some m);
  _ ← logging INFO "Parsing %d bytes of extended output" [ArgLen n'];
  for_each (paired_field more) VIGOR_130_MORE_VALUES output.

(** A call starts with no local of its own bound. *)
Definition new_frame : M () := fun s =>
  (Ok (), St (pending s) (clock s) (written s) (heard s) (log s) (stdout s) None None).

Definition get_vigor_stats (username password : string) : M () :=
  _ ← new_frame;
  _ ← assign_data None;
  _ ← try_except (dialogue username password)
                 (logging ERROR "Could not process output from modem" []);
  output ← parse;
  print output.

(** ** [main] *)

(** What the event loop makes of the connection attempt: [open_connection]
    raises, or the session is set up and the shell coroutine runs against
    the peer. *)
Inductive attempt :=
| ConnectFails (e : exn)
| Connects (peer : list read_event).

Record finished := Finished {
  exit_status : Z;
  final : st
}.

Section Main.
(** The shell runs as a task of the event loop. Whether an exception that
    escapes it is raised again from [run_until_complete] is decided by
    asyncio and telnetlib3, not by this script. *)
Variable reraised : exn -> bool.

Variables (ip username password : string).

(** The two [except] clauses; any other exception leaves [main] and the
    interpreter exits with status 1. *)
Definition on_exception (e : exn) (s : st) : finished :=
  match e with
  | ConnectionRefusedError =>
      Finished 0 (snd (logging ERROR "Could not connect to %s" [ArgStr ip] s))
  | KeyboardInterrupt =>
      Finished 0 (snd (logging ERROR "User cancelled with ^C" [] s))
  | _ => Finished 1 s
  end.

Definition main (a : attempt) : finished :=
  match a with
  | ConnectFails e => on_exception e (connected [])
  | Connects peer =>
      match get_vigor_stats username password (connected peer) with
      | (Ok _, s) => Finished 0 s
      | (Raise e, s) => if reraised e then on_exception e s else Finished 0 s
      end
  end.
End Main.

(** ** Predicates, sample peers and sample blobs used in the properties *)

Ltac each_char c :=
  destruct c as [[] [] [] [] [] [] [] []]; vm_compute; try reflexivity;
  try discriminate.

Definition not_space (c : ascii) : bool := negb (Ascii.eqb c " "%char).

(** Characters that [str.lower] leaves alone. *)
Definition lower_fixed (c : ascii) : bool := Ascii.eqb (Py.lower_char c) c.

(** Characters a normalized key is made of. *)
Definition key_char (c : ascii) : bool := lower_fixed c && not_space c.

(** A captured token: not empty, every character in the class. *)
Definition token (k : Re.cclass) (g : string) : Prop :=
  g <> EmptyString /\ Py.forall_chars (Re.in_class k) g = true.

(** What [coerce_fn] makes of a captured token. *)
Definition coerced (c : option coercion) (g : string) (x : scalar) : Prop :=
  match c with
  | Some CoerceInt => exists n, Py.int g = Some n /\ x = VInt n
  | Some CoerceBool => x = VBool (Py.bool g)
  | None => x = VStr g
  end.

(** Field [value] stores [x] under [k] when run on [blob]. *)
Definition writes (blob : string) (value : field) (k : string) (x : scalar)
    : Prop :=
  exists g1 g2 x1 x2,
    Re.search (paired_regex value) blob = Some [g1; g2] /\
    token Re.Digit g1 /\ token Re.Digit g2 /\
    coerced (coerce value) g1 x1 /\ coerced (coerce value) g2 x2 /\
    ((k = near (paired_key value) /\ x = x1) \/
     (k = far (paired_key value) /\ x = x2)).

(** The keys the first loop can store. *)
Definition basic_keys : list string :=
  map (fun v => label_key (label v)) VIGOR_130_VALUES.

(** Part of what the modem answers to [vdsl status]. *)
Definition sample_basic : string :=
  "  ---------------------- ATU-R Info (hw: annex A, f/w: annex A/B/C) -----------" +:+ CRLF +:+
  "   Running Mode            :      17A       State                : SHOWTIME" +:+ CRLF +:+
  "   DS Actual Rate          : 79999000 bps   US Actual Rate       : 20000000 bps" +:+ CRLF +:+
  "   NE Current Attenuation  :       13 dB    Cur SNR Margin       :       12  dB" +:+ CRLF +:+
  "   FE CRC Count            :      283       FE  ES Count         :     1720" +:+ CRLF.

(** The line quoted in the script's comment. *)
Definition fecs_line : string :=
  "FECS         :   345097            633047 (seconds)".

(** Part of what the modem answers to [vdsl status more]. *)
Definition sample_more : string :=
  "                  Near End        Far End    Note" +:+ CRLF +:+
  " Trellis      :      1               1" +:+ CRLF +:+
  " Bitswap      :      0               0" +:+ CRLF +:+
  " LOS          :      1               0" +:+ CRLF +:+
  " " +:+ fecs_line +:+ CRLF +:+
  " ES           :      45              12 (seconds)" +:+ CRLF.

(** The state in which [parse] starts once the dialogue has assigned both
    blobs. *)
Definition with_blobs (basic more : string) : st :=
  St [] 0 [] [] [] [] (Some basic) (Some more).

(** The entry of the second table for the quoted line. *)
Definition fecs : field := described "FECS" "Forward Error Correction Seconds".

(** What a run left under key [k], if it returned a record. *)
Definition found (k : string) (r : res (gmap string scalar) * st)
    : option scalar :=
  match fst r with
  | Ok out => out !! k
  | Raise _ => None
  end.

(** The quoted line, with another FECS line before it. *)
Definition shadowed_more : string :=
  " FECS         :   1            2 (seconds)" +:+ CRLF +:+
  " " +:+ fecs_line +:+ CRLF.

(** Text before the quoted line in which the FECS pattern has no match. *)
Definition fecs_pre : string :=
  " LOS          :      1               0" +:+ CRLF +:+ " ".

(** The login prompt arrives in two pieces. *)
Definition split_peer : list read_event := [Recv 20 "Acc"; Recv 20 "ount:"].

(** A banner arrives first, the login prompt second. *)
Definition banner_peer : list read_event :=
  [Recv 20 "Vigor130 login" ; Recv 20 "Account:"].

(** A peer whose first answer takes [latency] milliseconds and is not the
    marker, and who then closes. *)
Definition slow_peer (latency : N) : list read_event := [Recv latency CRLF].

(** Only [print] adds to what has been printed. *)
Definition silent {A} (m : M A) : Prop :=
  forall s r s', m s = (r, s') -> stdout s' = stdout s.

(** The peer resets the connection after the first blob. *)
Definition reset_peer : list read_event :=
  [Recv 20 "Account:"; Recv 20 "Password: "; Recv 20 "> ";
   Recv 300 sample_basic; Fail 50 ConnectionResetError].

(** An event loop that keeps to itself whatever escapes the shell task. *)
Definition not_reraised (e : exn) : bool := false.

(** A peer that lets the login through and answers both commands with
    nothing but a fresh prompt. *)
Definition mute_peer : list read_event :=
  [Recv 20 "Account:"; Recv 20 "Password: "; Recv 20 "> ";
   Recv 300 (CRLF +:+ "> "); Recv 300 (CRLF +:+ "> ")].

(** ** What one turn of the first loop does on a blob *)

(** The field is passed over: its label does not occur, or the pattern has
    no match. *)
Definition basic_skips (blob : string) (value : field) : Prop :=
  Py.contains blob (label value) = false \/
  Re.search (basic_regex value) blob = None.

(** The field stores [x]. *)
Definition basic_writes (blob : string) (value : field) (x : scalar) : Prop :=
  Py.contains blob (label value) = true /\
  exists g, Re.search (basic_regex value) blob = Some [g] /\
            token Re.Word g /\ coerced (coerce value) g x.

(** The field's token is not a number although the field wants one. *)
Definition basic_crashes (blob : string) (value : field) : Prop :=
  Py.contains blob (label value) = true /\
  exists g, Re.search (basic_regex value) blob = Some [g] /\
            coerce value = Some CoerceInt /\ Py.int g = None.

(** ** What the two loops log *)

Definition not_found (value : field) : log_record :=
  (ERROR, "Could not find %s in data", [ArgStr (label value)]).

Definition no_information (value : field) : log_record :=
  (ERROR, "Did not find information in output: %s", [ArgStr (label value)]).

(** The record a field of the first table leaves in the log, if any. *)
Definition basic_diagnostic (blob : string) (value : field)
    : list log_record :=
  if Py.contains blob (label value) then
    match Re.search (basic_regex value) blob with
    | Some _ => []
    | None => [no_information value]
    end
  else [not_found value].

(** The same for a field of the second table. *)
Definition paired_diagnostic (blob : string) (value : field)
    : list log_record :=
  match Re.search (paired_regex value) blob with
  | Some _ => []
  | None => [no_information value]
  end.

(** ** Invariants of a run *)

(** [m] keeps [I]: from a state where [I] holds, [m] ends, whatever its
    result, in a state where [I] holds. *)
Definition inv_keeps (I : st -> Prop) {A} (m : M A) : Prop :=
  forall s r s', I s -> m s = (r, s') -> I s'.

(** Everything in the state but the log. *)
Definition frame (s : st)
    : list read_event * N * list string * list string
      * list (gmap string scalar) * option string * option string :=
  (pending s, clock s, written s, heard s, stdout s, data s, more_data s).

(** The labels of the two tables. *)
Definition schema_labels : list string :=
  map label (VIGOR_130_VALUES ++ VIGOR_130_MORE_VALUES).

(** A log record whose string arguments, if any, are labels of the
    tables. *)
Definition plain_record (rec : log_record) : Prop :=
  forall a, In (ArgStr a) (snd rec) -> In a schema_labels.

Definition plain_log (s : st) : Prop := Forall plain_record (log s).

(** ** The dialogue, step by step *)

(** What the coroutine sends when it gets through the dialogue. *)
Definition script (username password : string) : list string :=
  [username +:+ CRLF; password +:+ CRLF;
   "vdsl status" +:+ CRLF; "vdsl status more" +:+ CRLF].

(** [m] sends the lines [ws] in order and takes at least [t] milliseconds
    when it returns; when it raises it has sent some of them from the
    start; and it binds [more_data] only if [binds] is set and it
    returns. *)
Definition steps (ws : list string) (t : N) (binds : bool) {A} (m : M A)
    : Prop :=
  forall s r s', m s = (r, s') ->
    (exists sent rest,
       ws = sent ++ rest /\ written s' = written s ++ sent /\
       (is_Ok r = true -> rest = [])) /\
    (is_Ok r = true -> clock s + t <= clock s') /\
    (is_Ok r = false \/ binds = false -> more_data s' = more_data s).

(** The state in which the [try] block starts: a fresh frame in which
    [data] has been set to [None]. *)
Definition entered (s : st) : st := snd (assign_data None (snd (new_frame s))).

(** The state after the handler of the [try] block has logged. *)
Definition handled (s : st) : st :=
  snd (logging ERROR "Could not process output from modem" [] s).

(** Every key the two loops can store, in the order of the tables. *)
Definition schema_keys : list string :=
  basic_keys ++
  flat_map (fun v => [near (paired_key v); far (paired_key v)])
    VIGOR_130_MORE_VALUES.

(** A field of the second table wants numbers and [int] refuses one of the
    two it captured. *)
Definition paired_crashes (blob : string) (value : field) : Prop :=
  exists g1 g2,
    Re.search (paired_regex value) blob = Some [g1; g2] /\
    coerce value = Some CoerceInt /\
    (Py.int g1 = None \/ Py.int g2 = None).




(** * Properties *)

(** ** The model on small inputs *)

Example label_key_double_space : label_key "FE  ES Count" = "fe_es_count".
Proof. reflexivity. Qed.

Example paired_key_description :
  paired_key fecs = "forward_error_correction_seconds".
Proof. reflexivity. Qed.

Example paired_key_label : paired_key (counter "NFEC") = "nfec".
Proof. reflexivity. Qed.

Example replace_is_one_pass : Py.replace "a    b" "  " " " = "a  b".
Proof. reflexivity. Qed.

Example int_examples :
  map Py.int ["12"; " 12 "; "+12"; "-12"; "1_2"; "_12"; "12_"; "1__2";
              ""; "17A"]
  = [Some 12; Some 12; Some 12; Some (-12); Some 12; None; None; None;
     None; None]%Z.
Proof. reflexivity. Qed.

Example search_rate :
  Re.search (basic_regex (measure "DS Actual Rate" "bps"))
    "DS Actual Rate    :   123456   bps" = Some ["123456"].
Proof. reflexivity. Qed.

Example search_needs_two_numbers :
  Re.search (paired_regex fecs) "FECS : 1234" = None /\
  Re.search (paired_regex fecs) "FECS : 123 4" = Some ["123"; "4"].
Proof. split; reflexivity. Qed.

Example basic_blob_with_a_word_for_a_number :
  fst (parse (with_blobs "NE CRC Count : none " "")) = Raise ValueError.
Proof. vm_compute. reflexivity. Qed.

(** ** Strings *)

Lemma app_cons c s t : String c s +:+ t = String c (s +:+ t).
Proof. reflexivity. Qed.

Lemma lower_char_idem c : Py.lower_char (Py.lower_char c) = Py.lower_char c.
Proof. each_char c. Qed.

Lemma lower_char_space c :
  Ascii.eqb (Py.lower_char c) " "%char = Ascii.eqb c " "%char.
Proof. each_char c. Qed.

Lemma startswith_nil s : Py.startswith s EmptyString = true.
Proof. now destruct s. Qed.

Lemma startswith_cons c s d t :
  Py.startswith (String c s) (String d t) = Ascii.eqb d c && Py.startswith s t.
Proof.
  unfold Py.startswith. simpl.
  destruct (ascii_dec d c) as [->|Hne].
  - now rewrite Ascii.eqb_refl.
  - apply Ascii.eqb_neq in Hne. now rewrite Hne.
Qed.

Lemma forall_chars_app P s t :
  Py.forall_chars P (s +:+ t) = Py.forall_chars P s && Py.forall_chars P t.
Proof.
  induction s as [|c s IH]; [reflexivity|].
  rewrite app_cons. simpl. now rewrite IH, andb_assoc.
Qed.

Lemma forall_chars_impl (P Q : ascii -> bool) s :
  (forall c, P c = true -> Q c = true) ->
  Py.forall_chars P s = true -> Py.forall_chars Q s = true.
Proof.
  intros HPQ. induction s as [|c s IH]; simpl; [easy|].
  rewrite !andb_true_iff. intros [? ?]. auto.
Qed.

(** *** [replace] *)

Lemma replace_from_forall P old new skip s :
  Py.forall_chars P new = true ->
  Py.forall_chars P s = true ->
  Py.forall_chars P (Py.replace_from old new skip s) = true.
Proof.
  intros Hnew. revert skip.
  induction s as [|c s IH]; intros skip Hs; [now destruct skip|].
  simpl in Hs. apply andb_true_iff in Hs as [Hc Hs].
  destruct skip as [|k]; cbn [Py.replace_from]; [|now apply IH].
  destruct (Py.startswith _ _).
  - rewrite forall_chars_app, Hnew. now apply IH.
  - simpl. rewrite Hc. now apply IH.
Qed.

(** Nothing is replaced in a text without spaces when [old] begins with
    one. *)
Lemma replace_from_no_space old new s :
  Py.forall_chars not_space s = true ->
  Py.replace_from (String " "%char old) new 0 s = s.
Proof.
  induction s as [|c s IH]; intros H; [reflexivity|].
  simpl in H. apply andb_true_iff in H as [Hc Hs].
  cbn [Py.replace_from]. rewrite startswith_cons.
  unfold not_space in Hc. apply negb_true_iff in Hc.
  rewrite Ascii.eqb_sym, Hc. simpl. now rewrite IH.
Qed.

Lemma replace_space_underscore s :
  Py.replace s " " "_" = Spec.underscores s.
Proof.
  unfold Py.replace.
  induction s as [|c s IH]; [reflexivity|].
  cbn [Py.replace_from Spec.underscores].
  rewrite startswith_cons, startswith_nil, andb_true_r, Ascii.eqb_sym.
  destruct (Ascii.eqb c " "%char); simpl; rewrite ?app_cons; simpl;
    now rewrite IH.
Qed.

Lemma replace_pair_step c s :
  Py.replace_from "  " " " 0 (String c s) =
  if Ascii.eqb c " "%char && Py.startswith s " "
  then String " "%char (Py.replace_from "  " " " 0 (Py.drop 1 s))
  else String c (Py.replace_from "  " " " 0 s).
Proof.
  cbn [Py.replace_from]. rewrite startswith_cons, Ascii.eqb_sym.
  destruct (Ascii.eqb c " "%char); simpl; [|reflexivity].
  destruct s as [|d s]; [reflexivity|].
  rewrite !startswith_cons, !startswith_nil.
  destruct (Ascii.eqb _ d); reflexivity.
Qed.

Lemma contains_cons c s t :
  Py.contains (String c s) t = Py.startswith (String c s) t || Py.contains s t.
Proof. reflexivity. Qed.

(** On a text without three spaces in a row the pairwise replacement and
    the collapse of whole runs agree. *)
Lemma replace_pair_collapse s :
  Py.contains s "   " = false ->
  Py.replace_from "  " " " 0 s = Spec.collapse_runs s.
Proof.
  remember (String.length s) as n eqn:Hn.
  revert s Hn. induction (lt_wf n) as [n _ IH]. intros s Hn Hs.
  destruct s as [|c s]; [reflexivity|].
  rewrite replace_pair_step. cbn [Spec.collapse_runs].
  rewrite contains_cons in Hs. apply orb_false_iff in Hs as [Hst Hs].
  destruct (Ascii.eqb c " "%char) eqn:Hc; simpl.
  - destruct s as [|d s]; [reflexivity|].
    rewrite startswith_cons, startswith_nil, andb_true_r.
    destruct (Ascii.eqb " " d) eqn:Hd.
    + apply Ascii.eqb_eq in Hc, Hd. subst c d.
      simpl Py.drop. cbn [Spec.collapse_runs].
      rewrite !startswith_cons, !Ascii.eqb_refl, !andb_true_l in Hst.
      rewrite Ascii.eqb_refl, Hst, andb_false_r. f_equal.
      rewrite contains_cons in Hs. apply orb_false_iff in Hs as [_ Hs].
      eapply IH; [|reflexivity|exact Hs]. subst n. simpl. lia.
    + f_equal. eapply IH; [|reflexivity|exact Hs]. subst n. simpl. lia.
  - f_equal. eapply IH; [|reflexivity|exact Hs]. subst n. simpl. lia.
Qed.

Lemma startswith_lower_spaces s t :
  Py.forall_chars (fun c => Ascii.eqb c " "%char) t = true ->
  Py.startswith (Py.lower s) t = Py.startswith s t.
Proof.
  revert s. induction t as [|d t IH]; intros s Ht.
  - now rewrite !startswith_nil.
  - simpl in Ht. apply andb_true_iff in Ht as [Hd Ht].
    apply Ascii.eqb_eq in Hd. subst d.
    destruct s as [|c s]; [reflexivity|].
    simpl Py.lower. rewrite !startswith_cons, IH by exact Ht.
    now rewrite (Ascii.eqb_sym _ (Py.lower_char c)), lower_char_space,
      Ascii.eqb_sym.
Qed.

Lemma contains_lower_spaces s t :
  Py.forall_chars (fun c => Ascii.eqb c " "%char) t = true ->
  Py.contains (Py.lower s) t = Py.contains s t.
Proof.
  intros Ht. induction s as [|c s IH].
  - reflexivity.
  - change (Py.lower (String c s)) with (String (Py.lower_char c) (Py.lower s)).
    rewrite !contains_cons, IH.
    change (String (Py.lower_char c) (Py.lower s)) with (Py.lower (String c s)).
    now rewrite startswith_lower_spaces.
Qed.

(** Without two spaces in a row there is no run to collapse. *)
Lemma collapse_runs_id s :
  Py.contains s "  " = false -> Spec.collapse_runs s = s.
Proof.
  induction s as [|c s IH]; intros H; [reflexivity|].
  rewrite contains_cons in H. apply orb_false_iff in H as [Hst Hs].
  cbn [Spec.collapse_runs].
  destruct s as [|d s].
  - rewrite andb_false_r. reflexivity.
  - rewrite !startswith_cons, !startswith_nil, andb_true_r in *.
    rewrite (Ascii.eqb_sym c), Hst. f_equal. now apply IH.
Qed.

(** ** The key normalizer *)

Lemma lower_is_fixed s : Py.forall_chars lower_fixed (Py.lower s) = true.
Proof.
  induction s as [|c s IH]; [reflexivity|].
  simpl. unfold lower_fixed at 1.
  now rewrite lower_char_idem, Ascii.eqb_refl, IH.
Qed.

Lemma lower_of_fixed s :
  Py.forall_chars lower_fixed s = true -> Py.lower s = s.
Proof.
  induction s as [|c s IH]; [reflexivity|].
  simpl. intros [Hc Hs]%andb_true_iff.
  apply Ascii.eqb_eq in Hc. now rewrite Hc, IH.
Qed.

Lemma underscores_key_chars s :
  Py.forall_chars lower_fixed s = true ->
  Py.forall_chars key_char (Spec.underscores s) = true.
Proof.
  induction s as [|c s IH]; [reflexivity|].
  simpl. intros [Hc Hs]%andb_true_iff. rewrite (IH Hs), andb_true_r.
  unfold key_char, not_space.
  destruct (Ascii.eqb c " ") eqn:E; [reflexivity|].
  now rewrite Hc, E.
Qed.

Lemma label_key_unfold l :
  label_key l = Spec.underscores (Py.replace_from "  " " " 0 (Py.lower l)).
Proof. unfold label_key. now rewrite replace_space_underscore. Qed.

Lemma desc_key_unfold d : desc_key d = Spec.underscores (Py.lower d).
Proof. unfold desc_key. now rewrite replace_space_underscore. Qed.

Lemma label_key_chars l : Py.forall_chars key_char (label_key l) = true.
Proof.
  rewrite label_key_unfold. apply underscores_key_chars.
  apply replace_from_forall; [reflexivity|apply lower_is_fixed].
Qed.

Lemma desc_key_chars d : Py.forall_chars key_char (desc_key d) = true.
Proof.
  rewrite desc_key_unfold. apply underscores_key_chars, lower_is_fixed.
Qed.

(** A text of key characters is left as it is by both normalizers. *)
Lemma key_chars_fixpoint s :
  Py.forall_chars key_char s = true -> label_key s = s /\ desc_key s = s.
Proof.
  intros H.
  assert (Hl : Py.lower s = s).
  { apply lower_of_fixed. revert H. apply forall_chars_impl.
    unfold key_char. now intros c [? _]%andb_true_iff. }
  assert (Hn : Py.forall_chars not_space s = true).
  { revert H. apply forall_chars_impl.
    unfold key_char. now intros c [_ ?]%andb_true_iff. }
  unfold label_key, desc_key, Py.replace. rewrite Hl.
  now rewrite !replace_from_no_space
    by now rewrite ?replace_from_no_space.
Qed.

(** C5, as stated, fails: the first [replace] pairs spaces off once, from
    the left, so a run of three spaces leaves two behind and the key gets
    two underscores where the collapse of the whole run would give one. *)
Lemma label_key_run_of_three :
  label_key "a   b" = "a__b" /\ Spec.normalize "a   b" = "a_b" /\
  label_key "a   b" <> Spec.normalize "a   b".
Proof. repeat split. discriminate. Qed.

(** C5, amended: on a text without three spaces in a row the label
    normalizer gives the lower-cased text with each run of spaces collapsed
    to one and the spaces turned into underscores; the description
    normalizer, which does not collapse, gives that on a text without two
    spaces in a row. *)
Theorem label_key_normalizes text :
  (Py.contains text "   " = false -> label_key text = Spec.normalize text) /\
  (Py.contains text "  " = false -> desc_key text = Spec.normalize text).
Proof.
  split; intros H.
  - rewrite label_key_unfold. unfold Spec.normalize. f_equal.
    apply replace_pair_collapse. now rewrite contains_lower_spaces.
  - rewrite desc_key_unfold. unfold Spec.normalize. f_equal.
    symmetry. apply collapse_runs_id. now rewrite contains_lower_spaces.
Qed.

Lemma label_key_normalizes_witness :
  label_key "FE  ES Count" = Spec.normalize "FE  ES Count" /\
  desc_key "Loss Of Signal Count" = Spec.normalize "Loss Of Signal Count".
Proof.
  split.
  - apply (proj1 (label_key_normalizes "FE  ES Count")). reflexivity.
  - apply (proj2 (label_key_normalizes "Loss Of Signal Count")). reflexivity.
Defined.

(** C8: normalizing a key again changes nothing; this holds for the label
    normalizer and for the description normalizer. *)
Theorem label_key_idempotent x :
  label_key (label_key x) = label_key x /\ desc_key (desc_key x) = desc_key x.
Proof.
  split.
  - apply key_chars_fixpoint, label_key_chars.
  - apply key_chars_fixpoint, desc_key_chars.
Qed.

(** ** Patterns *)

Lemma plus_inv {A} k (rest : string -> option A) s r :
  Re.plus k rest s = Some r -> exists s', rest s' = Some r.
Proof.
  induction s as [|c s IH]; simpl; [discriminate|].
  destruct (Re.in_class k c); [|discriminate].
  destruct (Re.plus k rest s) as [r'|] eqn:E.
  - intros [= <-]. now apply IH.
  - intros H. now exists s.
Qed.

Lemma group_inv {A} k (rest : string -> option A) s cap r :
  Re.group k rest s = Some (cap, r) ->
  token k cap /\ exists s', rest s' = Some r.
Proof.
  revert cap. induction s as [|c s IH]; intros cap; simpl; [discriminate|].
  destruct (Re.in_class k c) eqn:Hc; [|discriminate].
  destruct (Re.group k rest s) as [[cap' r']|] eqn:E.
  - intros [= <- <-]. destruct (IH cap' eq_refl) as [[_ Hall] Hrest].
    split; [|exact Hrest]. split; [discriminate|]. simpl. now rewrite Hc.
  - destruct (rest s) as [r'|] eqn:Er; [|discriminate].
    intros [= <- <-]. split; [|now exists s].
    split; [discriminate|]. simpl. now rewrite Hc.
Qed.

Lemma search_inv p s gs :
  Re.search p s = Some gs -> exists s', Re.match_here p s' = Some gs.
Proof.
  induction s as [|c s IH]; simpl.
  - destruct (Re.match_here p EmptyString) eqn:E; [|discriminate].
    intros [= <-]. now exists EmptyString.
  - destruct (Re.match_here p (String c s)) eqn:E.
    + intros [= <-]. now exists (String c s).
    + exact IH.
Qed.

(** A match of the paired pattern captures exactly two tokens of digits. *)
Lemma paired_match_groups value s gs :
  Re.match_here (paired_regex value) s = Some gs ->
  exists g1 g2, gs = [g1; g2] /\ token Re.Digit g1 /\ token Re.Digit g2.
Proof.
  unfold paired_regex. cbn [Re.match_here].
  destruct (Py.startswith s (label value)); [|discriminate].
  intros H. apply plus_inv in H as [s1 H].
  destruct (Py.startswith s1 ":"); [|discriminate].
  apply plus_inv in H as [s2 H].
  destruct (Re.group _ _ s2) as [[g1 r1]|] eqn:E1; [|discriminate].
  injection H as <-.
  apply group_inv in E1 as [T1 [s3 H]].
  apply plus_inv in H as [s4 H].
  destruct (Re.group _ _ s4) as [[g2 r2]|] eqn:E2; [|discriminate].
  injection H as <-.
  apply group_inv in E2 as [T2 [s5 H]].
  injection H as <-. now exists g1, g2.
Qed.

Lemma paired_search_groups value blob gs :
  Re.search (paired_regex value) blob = Some gs ->
  exists g1 g2, gs = [g1; g2] /\ token Re.Digit g1 /\ token Re.Digit g2.
Proof.
  intros H. apply search_inv in H as [s H]. eapply paired_match_groups, H.
Qed.

(** *** [int] on a token of digits *)

Lemma digit_facts c :
  Py.is_digit c = true ->
  Py.is_int_space c = false /\ (Py.code c =? 43) = false /\
  (Py.code c =? 45) = false.
Proof.
  destruct c as [[] [] [] [] [] [] [] []]; vm_compute; intros H;
    try discriminate H; repeat split.
Qed.

Lemma digits_total acc prev s :
  Py.forall_chars Py.is_digit s = true ->
  s <> EmptyString \/ prev = true ->
  exists n, Py.digits acc prev s = Some n.
Proof.
  revert acc prev. induction s as [|c s IH]; intros acc prev Hall Hne.
  - destruct Hne as [Hne| ->]; [now destruct Hne|]. now exists acc.
  - simpl in Hall. apply andb_true_iff in Hall as [Hc Hs].
    cbn [Py.digits]. rewrite Hc. apply IH; auto.
Qed.

Lemma rstrip_aux_digits s :
  Py.forall_chars Py.is_digit s = true -> s <> EmptyString ->
  Py.rstrip_aux Py.is_int_space s = Some s.
Proof.
  induction s as [|c s IH]; intros Hall Hne; [now destruct Hne|].
  simpl in Hall. apply andb_true_iff in Hall as [Hc Hs].
  cbn [Py.rstrip_aux]. destruct s as [|d s].
  - simpl. now destruct (digit_facts c Hc) as [-> _].
  - rewrite IH; [reflexivity|exact Hs|discriminate].
Qed.

Lemma count_digits_all s :
  Py.forall_chars Py.is_digit s = true ->
  Py.count_digits s = String.length s.
Proof.
  induction s as [|c s IH]; [reflexivity|].
  simpl. intros [Hc Hs]%andb_true_iff. now rewrite Hc, IH.
Qed.

(** On a token of digits [int] comes down to the digit loop and the
    limit. *)
Lemma int_on_token g :
  token Re.Digit g ->
  Py.int g = Py.within_limit g (Py.digits 0 false g).
Proof.
  intros [Hne Hall]. destruct g as [|c g]; [now destruct Hne|].
  pose proof Hall as Hall'. simpl in Hall'.
  apply andb_true_iff in Hall' as [Hc _].
  destruct (digit_facts c Hc) as (Hsp & Hplus & Hminus).
  unfold Py.int. cbn [Py.lstrip]. rewrite Hsp.
  unfold Py.rstrip. rewrite rstrip_aux_digits by (exact Hall || discriminate).
  change (default EmptyString (Some (String c g))) with (String c g).
  cbv iota. now rewrite Hplus, Hminus.
Qed.

Lemma int_of_token g :
  token Re.Digit g -> (String.length g <= Py.max_str_digits)%nat ->
  exists n, Py.int g = Some n.
Proof.
  intros T Hlen. rewrite (int_on_token g T). destruct T as [Hne Hall].
  unfold Py.within_limit. rewrite (count_digits_all g Hall).
  apply Nat.leb_le in Hlen. rewrite Hlen.
  apply digits_total; [exact Hall|now left].
Qed.


(** At the limit: 4300 digits are read and 4301 are not; leading zeros
    count, a sign and underscores do not. *)
Example int_digit_limit :
  is_Some (Py.int (Py.times "1" 4300)) /\
  Py.int (Py.times "1" 4301) = None /\
  Py.int ("+" +:+ Py.times "0" 4300) = Some 0%Z /\
  Py.int (Py.times "0" 4301) = None /\
  Py.int (Py.times "0_" 4299 +:+ "0") = Some 0%Z /\
  Py.int (Py.times "0_" 4300 +:+ "0") = None.
Proof.
  split.
  { destruct (int_of_token (Py.times "1" 4300)) as [n Hn]; [split| |eauto].
    - vm_compute. discriminate.
    - vm_compute. reflexivity.
    - apply Nat.leb_le. vm_compute. reflexivity. }
  split; [vm_compute; reflexivity|]. split; [vm_compute; reflexivity|].
  split; [vm_compute; reflexivity|]. split; vm_compute; reflexivity.
Qed.

(** ** The two loops *)

Lemma bind_unfold {A B} (m : M A) (f : A -> M B) s :
  (m ≫= f) s =
  match m s with
  | (Ok a, s') => f a s'
  | (Raise e, s') => (Raise e, s')
  end.
Proof. reflexivity. Qed.

Lemma apply_coerce_cases c g s :
  (exists x, coerced c g x /\ apply_coerce c g s = (Ok x, s)) \/
  (c = Some CoerceInt /\ Py.int g = None /\
   apply_coerce c g s = (Raise ValueError, s)).
Proof.
  destruct c as [[|]|]; simpl.
  - destruct (Py.int g) as [n|] eqn:Hn.
    + left. exists (VInt n). split; [now exists n|reflexivity].
    + right. now repeat split.
  - left. now eexists.
  - left. now eexists.
Qed.

(** One turn of the second loop leaves the record alone, stores both
    values, or raises [ValueError] because [int] refuses a token. *)
Lemma paired_field_step blob value out s :
  exists s',
    (Re.search (paired_regex value) blob = None /\
     paired_field blob value out s = (Ok out, s')) \/
    (exists g1 g2 x1 x2,
       Re.search (paired_regex value) blob = Some [g1; g2] /\
       token Re.Digit g1 /\ token Re.Digit g2 /\
       coerced (coerce value) g1 x1 /\ coerced (coerce value) g2 x2 /\
       paired_field blob value out s =
         (Ok (<[far (paired_key value) := x2]>
                (<[near (paired_key value) := x1]> out)), s')) \/
    (paired_crashes blob value /\
     paired_field blob value out s = (Raise ValueError, s')).
Proof.
  unfold paired_field, paired_crashes.
  destruct (Re.search (paired_regex value) blob) as [gs|] eqn:E.
  - destruct (paired_search_groups _ _ _ E) as (g1 & g2 & -> & T1 & T2).
    exists s. right.
    rewrite bind_unfold. cbn [group nth_error Nat.sub mret M_ret].
    rewrite bind_unfold.
    destruct (apply_coerce_cases (coerce value) g1 s)
      as [(x1 & C1 & E1)|(Hc & Hi & E1)]; rewrite E1.
    + rewrite bind_unfold. cbn [mret M_ret]. rewrite bind_unfold.
      destruct (apply_coerce_cases (coerce value) g2 s)
        as [(x2 & C2 & E2)|(Hc & Hi & E2)]; rewrite E2.
      * left. exists g1, g2, x1, x2. split; [reflexivity|].
        repeat (split; [assumption|]). reflexivity.
      * right. split; [|reflexivity]. exists g1, g2.
        split; [reflexivity|]. split; [exact Hc|now right].
    + right. split; [|reflexivity]. exists g1, g2.
      split; [reflexivity|]. split; [exact Hc|now left].
  - eexists. left. split; [reflexivity|]. reflexivity.
Qed.

Lemma coerced_int_read g x :
  coerced (Some CoerceInt) g x -> Py.int g <> None.
Proof. intros (n & Hn & _). congruence. Qed.

(** The second loop when it returns: where the entries of its record come
    from and what the record is sure to hold. *)
Lemma for_each_paired blob values : forall out s out' s',
  for_each (paired_field blob) values out s = (Ok out', s') ->
  (forall k x, out' !! k = Some x ->
     out !! k = Some x \/ exists v, v ∈ values /\ writes blob v k x) /\
  (forall k, is_Some (out !! k) -> is_Some (out' !! k)) /\
  (forall v, v ∈ values ->
     is_Some (Re.search (paired_regex v) blob) ->
     is_Some (out' !! near (paired_key v)) /\
     is_Some (out' !! far (paired_key v))) /\
  (forall v, v ∈ values -> ~ paired_crashes blob v).
Proof.
  induction values as [|v values IH]; intros out s out' s'.
  - cbn. intros [= <- _]. split; [intros; now left|]. split; [auto|].
    split; intros w Hw; inversion Hw.
  - cbn [for_each]. destruct (paired_field_step blob v out s) as [s1 Hstep].
    rewrite bind_unfold.
    destruct Hstep as [[Hnone Hrun]
      |[(g1 & g2 & x1 & x2 & Hs & T1 & T2 & C1 & C2 & Hrun)|[_ Hrun]]];
      rewrite Hrun; [| |discriminate].
    + intros Hfor. destruct (IH _ _ _ _ Hfor) as (HA & HB & HC & HD).
      split; [|split; [|split]].
      * intros k x Hk. destruct (HA k x Hk) as [?|(w & Hw & Hwr)]; [now left|].
        right. exists w. split; [now apply elem_of_cons; right|exact Hwr].
      * exact HB.
      * intros w [->|Hw]%elem_of_cons Hm.
        -- rewrite Hnone in Hm. now destruct Hm.
        -- now apply HC.
      * intros w [->|Hw]%elem_of_cons; [|now apply HD].
        intros (a & b & Hab & _). congruence.
    + set (out1 := <[far (paired_key v) := x2]>
                     (<[near (paired_key v) := x1]> out)) in *.
      intros Hfor. destruct (IH _ _ _ _ Hfor) as (HA & HB & HC & HD).
      split; [|split; [|split]].
      * intros k x Hk. destruct (HA k x Hk) as [H1|(w & Hw & Hwr)].
        -- subst out1.
           apply lookup_insert_Some in H1 as [[<- <-]|[Hne H1]].
           { right. exists v. split; [apply elem_of_cons; now left|].
             exists g1, g2, x1, x2. repeat (split; [assumption|]).
             now right. }
           apply lookup_insert_Some in H1 as [[<- <-]|[Hne' H1]].
           { right. exists v. split; [apply elem_of_cons; now left|].
             exists g1, g2, x1, x2. repeat (split; [assumption|]).
             now left. }
           now left.
        -- right. exists w. split; [now apply elem_of_cons; right|exact Hwr].
      * intros k Hk. apply HB. subst out1.
        rewrite !lookup_insert_is_Some'. auto.
      * intros w [->|Hw]%elem_of_cons Hm; [|now apply HC].
        split; apply HB; subst out1; rewrite !lookup_insert_is_Some'; auto.
      * intros w [->|Hw]%elem_of_cons; [|now apply HD].
        intros (a & b & Hab & Hco & Hi). rewrite Hs in Hab.
        injection Hab as <- <-. rewrite Hco in C1, C2.
        destruct Hi as [Hi|Hi];
          [now apply (coerced_int_read g1 x1)|now apply (coerced_int_read g2 x2)].
Qed.

(** The second loop when it raises. *)
Lemma for_each_paired_raise blob values : forall out s e s',
  for_each (paired_field blob) values out s = (Raise e, s') ->
  e = ValueError /\ exists v, v ∈ values /\ paired_crashes blob v.
Proof.
  induction values as [|v values IH]; intros out s e s'; [discriminate|].
  cbn [for_each]. destruct (paired_field_step blob v out s) as [s1 Hstep].
  rewrite bind_unfold.
  destruct Hstep as [[_ Hrun]|[(g1 & g2 & x1 & x2 & _ & _ & _ & _ & _ & Hrun)
                              |[Hcr Hrun]]]; rewrite Hrun.
  - intros H. destruct (IH _ _ _ _ H) as (-> & w & Hw & Hc).
    split; [reflexivity|]. exists w. split; [now apply elem_of_cons; right|].
    exact Hc.
  - intros H. destruct (IH _ _ _ _ H) as (-> & w & Hw & Hc).
    split; [reflexivity|]. exists w. split; [now apply elem_of_cons; right|].
    exact Hc.
  - intros [= <- _]. split; [reflexivity|]. exists v.
    split; [apply elem_of_cons; now left|exact Hcr].
Qed.

(** One turn of the first loop stores at most the label's key. *)
Lemma basic_field_step blob value out s out' s' :
  basic_field blob value out s = (Ok out', s') ->
  out' = out \/ exists x, out' = <[label_key (label value) := x]> out.
Proof.
  unfold basic_field.
  destruct (negb (Py.contains blob (label value))).
  - rewrite bind_unfold. cbn. intros [= <- _]. now left.
  - destruct (Re.search (basic_regex value) blob) as [gs|].
    + rewrite bind_unfold.
      destruct (group gs 1 s) as [[t|e] s1]; [|discriminate].
      rewrite bind_unfold.
      destruct (apply_coerce (coerce value) t s1) as [[x|e] s2];
        [|discriminate].
      cbn. intros [= <- _]. right. now exists x.
    + rewrite bind_unfold. cbn. intros [= <- _]. now left.
Qed.

Lemma for_each_basic blob values : forall out s out' s',
  for_each (basic_field blob) values out s = (Ok out', s') ->
  forall k, is_Some (out' !! k) ->
    is_Some (out !! k) \/ exists v, v ∈ values /\ k = label_key (label v).
Proof.
  induction values as [|v values IH]; intros out s out' s'.
  - cbn. intros [= <- _] k Hk. now left.
  - cbn [for_each]. rewrite bind_unfold.
    destruct (basic_field blob v out s) as [[out1|e] s1] eqn:E; [|discriminate].
    intros Hfor k Hk.
    destruct (IH _ _ _ _ Hfor k Hk) as [H1|(w & Hw & ->)].
    + destruct (basic_field_step _ _ _ _ _ _ E) as [->|[x ->]]; [now left|].
      apply lookup_insert_is_Some' in H1 as [<-|H1]; [|now left].
      right. exists v. split; [apply elem_of_cons; now left|reflexivity].
    + right. exists w. split; [now apply elem_of_cons; right|reflexivity].
Qed.

(** ** Keys of the record *)

Lemma length_app s t :
  String.length (s +:+ t) = (String.length s + String.length t)%nat.
Proof.
  induction s as [|c s IH]; [reflexivity|].
  rewrite app_cons. simpl. now rewrite IH.
Qed.

Lemma app_inv_tail s1 s2 t : s1 +:+ t = s2 +:+ t -> s1 = s2.
Proof.
  revert s2. induction s1 as [|c s1 IH]; intros [|d s2] H.
  - reflexivity.
  - apply (f_equal String.length) in H.
    rewrite !length_app in H. simpl in H. lia.
  - apply (f_equal String.length) in H.
    rewrite !length_app in H. simpl in H. lia.
  - rewrite !app_cons in H. injection H as -> H. f_equal. now apply IH.
Qed.

Lemma endswith_app_short s t u :
  (String.length u <= String.length t)%nat ->
  Py.endswith (s +:+ t) u = Py.endswith t u.
Proof.
  intros Hlen. induction s as [|c s IH]; [reflexivity|].
  rewrite app_cons. cbn [Py.endswith]. rewrite IH.
  destruct (String.eqb (String c (s +:+ t)) u) eqn:E; [|reflexivity].
  apply String.eqb_eq in E. apply (f_equal String.length) in E.
  simpl in E. rewrite length_app in E. lia.
Qed.

Lemma near_inj k1 k2 : near k1 = near k2 -> k1 = k2.
Proof. apply app_inv_tail. Qed.

Lemma far_inj k1 k2 : far k1 = far k2 -> k1 = k2.
Proof. apply app_inv_tail. Qed.

Lemma near_ends k : Py.endswith (near k) "_near" = true /\
                    Py.endswith (near k) "_far" = false.
Proof.
  unfold near. split; rewrite endswith_app_short; (reflexivity || simpl; lia).
Qed.

Lemma far_ends k : Py.endswith (far k) "_far" = true /\
                   Py.endswith (far k) "_near" = false.
Proof.
  unfold far. split.
  - rewrite endswith_app_short; (reflexivity || simpl; lia).
  - induction k as [|c k IH]; [reflexivity|].
    rewrite app_cons. cbn [Py.endswith]. rewrite IH, orb_false_r.
    apply String.eqb_neq. intros E.
    assert (H : Py.endswith (String c k +:+ "_far") "_far" = true)
      by (rewrite endswith_app_short; (reflexivity || simpl; lia)).
    rewrite app_cons, E in H. discriminate H.
Qed.

Lemma near_far_ne k1 k2 : near k1 <> far k2.
Proof.
  intros E. pose proof (proj1 (near_ends k1)) as H.
  rewrite E, (proj2 (far_ends k2)) in H. discriminate H.
Qed.

(** No key of the first table looks like a key of the second. *)
Lemma basic_key_ends v :
  v ∈ VIGOR_130_VALUES ->
  Py.endswith (label_key (label v)) "_near" = false /\
  Py.endswith (label_key (label v)) "_far" = false.
Proof.
  intros Hv.
  assert (Hall : forallb (fun k => negb (Py.endswith k "_near") &&
                                   negb (Py.endswith k "_far")) basic_keys
                 = true) by (vm_compute; reflexivity).
  rewrite forallb_forall in Hall.
  specialize (Hall (label_key (label v))).
  rewrite andb_true_iff, !negb_true_iff in Hall. apply Hall.
  unfold basic_keys. apply (in_map (fun w => label_key (label w))).
  now apply list_elem_of_In.
Qed.

Lemma basic_key_not_paired v k :
  v ∈ VIGOR_130_VALUES ->
  label_key (label v) <> near k /\ label_key (label v) <> far k.
Proof.
  intros Hv. destruct (basic_key_ends v Hv) as [Hn Hf].
  split; intros E.
  - rewrite E, (proj1 (near_ends k)) in Hn. discriminate Hn.
  - rewrite E, (proj1 (far_ends k)) in Hf. discriminate Hf.
Qed.

(** ** [parse] *)

Lemma basic_field_locals blob value out s r s' :
  basic_field blob value out s = (r, s') -> more_data s' = more_data s.
Proof.
  unfold basic_field, group, apply_coerce, logging.
  cbv [mbind M_bind mret M_ret raise].
  destruct (negb _); [now intros [= _ <-]|].
  destruct (Re.search _ _) as [gs|]; [|now intros [= _ <-]].
  destruct (nth_error gs (1 - 1)) as [t|]; [|now intros [= _ <-]].
  destruct (coerce value) as [[|]|]; [destruct (Py.int t)|..];
    now intros [= _ <-].
Qed.

Lemma for_each_basic_locals blob values : forall out s r s',
  for_each (basic_field blob) values out s = (r, s') ->
  more_data s' = more_data s.
Proof.
  induction values as [|v values IH]; intros out s r s'.
  - cbn. now intros [= _ <-].
  - cbn [for_each]. rewrite bind_unfold.
    destruct (basic_field blob v out s) as [[out1|e] s1] eqn:E.
    + intros H. apply IH in H. rewrite H. eapply basic_field_locals, E.
    + intros [= _ <-]. eapply basic_field_locals, E.
Qed.

(** A run of [parse] that returns has gone through both loops, the first on
    [data] from the empty record, the second on [more_data] from the first
    loop's record. *)
Lemma parse_inv s out s' :
  parse s = (Ok out, s') ->
  exists basic more out0 s1 s2 s3,
    data s = Some basic /\ more_data s = Some more /\
    for_each (basic_field basic) VIGOR_130_VALUES ∅ s1 = (Ok out0, s2) /\
    for_each (paired_field more) VIGOR_130_MORE_VALUES out0 s3 = (Ok out, s').
Proof.
  unfold parse. rewrite bind_unfold. cbn [local_data].
  destruct (data s) as [basic|] eqn:Hd; [|discriminate].
  rewrite bind_unfold. cbn [len mret M_ret]. rewrite bind_unfold.
  cbn [logging]. rewrite bind_unfold.
  match goal with
  | |- context [for_each (basic_field basic) _ _ ?s1] =>
      destruct (for_each (basic_field basic) VIGOR_130_VALUES ∅ s1)
        as [[out0|e] s2] eqn:E1; [|discriminate];
      pose proof (for_each_basic_locals _ _ _ _ _ _ E1) as Hm; cbn in Hm
  end.
  rewrite bind_unfold. unfold local_more_data at 1.
  destruct (more_data s2) as [more|] eqn:Hm2; [|discriminate].
  rewrite bind_unfold. cbn [len mret M_ret]. rewrite bind_unfold.
  cbn [logging]. intros H.
  eexists basic, more, out0, _, s2, _.
  split; [reflexivity|]. split; [now rewrite <- Hm|].
  split; [exact E1|exact H].
Qed.

(** Where the entries of the final record come from, and which entries it
    is sure to have. *)
Lemma parse_lookup s out s' basic more :
  data s = Some basic -> more_data s = Some more ->
  parse s = (Ok out, s') ->
  (forall k x, out !! k = Some x ->
     (exists v, v ∈ VIGOR_130_VALUES /\ k = label_key (label v)) \/
     (exists v, v ∈ VIGOR_130_MORE_VALUES /\ writes more v k x)) /\
  (forall v, v ∈ VIGOR_130_MORE_VALUES ->
     is_Some (Re.search (paired_regex v) more) ->
     is_Some (out !! near (paired_key v)) /\
     is_Some (out !! far (paired_key v))).
Proof.
  intros Hd Hm Hp.
  destruct (parse_inv _ _ _ Hp)
    as (basic' & more' & out0 & s1 & s2 & s3 & Hd' & Hm' & E1 & E2).
  rewrite Hd in Hd'. rewrite Hm in Hm'.
  injection Hd' as <-. injection Hm' as <-.
  destruct (for_each_paired _ _ _ _ _ _ E2) as (HA & _ & HC & _).
  split; [|exact HC].
  intros k x Hk. destruct (HA k x Hk) as [H0|Hw]; [left|now right].
  destruct (for_each_basic _ _ _ _ _ _ E1 k (mk_is_Some _ _ H0))
    as [Hin|Hv]; [|exact Hv].
  rewrite lookup_empty in Hin. now destruct Hin.
Qed.

Lemma writes_matched blob v k x :
  writes blob v k x -> is_Some (Re.search (paired_regex v) blob).
Proof. intros (g1 & g2 & _ & _ & -> & _). eauto. Qed.

(** C6: in the record that [parse] returns, whatever the two blobs, each
    field of the second table has both its [_near] and its [_far] key or
    has neither. *)
Theorem paired_keys_together basic more s out s' :
  data s = Some basic -> more_data s = Some more ->
  parse s = (Ok out, s') ->
  forall v, v ∈ VIGOR_130_MORE_VALUES ->
    is_Some (out !! near (paired_key v)) <->
    is_Some (out !! far (paired_key v)).
Proof.
  intros Hd Hm Hp v Hv.
  destruct (parse_lookup _ _ _ _ _ Hd Hm Hp) as [HA HC].
  split; intros [x Hx]; destruct (HA _ _ Hx) as [(w & Hw & E)|(w & Hw & Hwr)].
  - destruct (basic_key_not_paired w (paired_key v) Hw) as [H _]. congruence.
  - pose proof (writes_matched _ _ _ _ Hwr) as Hs.
    destruct Hwr as (g1 & g2 & x1 & x2 & _ & _ & _ & _ & _ & [[E _]|[E _]]).
    + apply near_inj in E. rewrite E. now apply HC.
    + now apply near_far_ne in E.
  - destruct (basic_key_not_paired w (paired_key v) Hw) as [_ H]. congruence.
  - pose proof (writes_matched _ _ _ _ Hwr) as Hs.
    destruct Hwr as (g1 & g2 & x1 & x2 & _ & _ & _ & _ & _ & [[E _]|[E _]]).
    + symmetry in E. now apply near_far_ne in E.
    + apply far_inj in E. rewrite E. now apply HC.
Qed.

Lemma paired_keys_together_witness :
  exists out s',
    parse (with_blobs sample_basic sample_more) = (Ok out, s') /\
    (is_Some (out !! near (paired_key fecs)) <->
     is_Some (out !! far (paired_key fecs))).
Proof.
  destruct (parse (with_blobs sample_basic sample_more)) as [r s'] eqn:E.
  assert (Hok : is_Ok r = true).
  { change r with (fst (r, s')). rewrite <- E. vm_compute. reflexivity. }
  destruct r as [out|e]; [|discriminate Hok].
  exists out, s'. split; [reflexivity|].
  apply (paired_keys_together sample_basic sample_more
           (with_blobs sample_basic sample_more) out s');
    [reflexivity|reflexivity|exact E|].
  apply list_elem_of_In. vm_compute. tauto.
Defined.

(** ** The second table: who owns a key *)

Lemma injective_on_NoDup {A B} (f : A -> B) (l : list A) :
  List.NoDup (map f l) ->
  forall x y, In x l -> In y l -> f x = f y -> x = y.
Proof.
  induction l as [|a l IH]; intros Hnd x y Hx Hy E; [now destruct Hx|].
  simpl in Hnd. apply NoDup_cons_iff in Hnd as [Hna Hnd].
  destruct Hx as [<-|Hx], Hy as [<-|Hy].
  - reflexivity.
  - destruct Hna. rewrite E. now apply in_map.
  - destruct Hna. rewrite <- E. now apply in_map.
  - now apply IH.
Qed.

Lemma paired_keys_distinct : List.NoDup (map paired_key VIGOR_130_MORE_VALUES).
Proof.
  apply (NoDup_ListNoDup (map paired_key VIGOR_130_MORE_VALUES)).
  apply (bool_decide_unpack _). vm_compute. exact I.
Qed.

Lemma paired_key_inj v w :
  v ∈ VIGOR_130_MORE_VALUES -> w ∈ VIGOR_130_MORE_VALUES ->
  paired_key v = paired_key w -> v = w.
Proof.
  intros Hv Hw. apply list_elem_of_In in Hv, Hw.
  now apply (injective_on_NoDup paired_key _ paired_keys_distinct).
Qed.

(** An entry under a field's [_near] or [_far] key was stored by that
    field's own turn of the second loop. *)
Lemma paired_entry_origin basic more s out s' v x :
  data s = Some basic -> more_data s = Some more ->
  parse s = (Ok out, s') ->
  v ∈ VIGOR_130_MORE_VALUES ->
  (out !! near (paired_key v) = Some x ->
     exists g1 g2, Re.search (paired_regex v) more = Some [g1; g2] /\
       token Re.Digit g1 /\ coerced (coerce v) g1 x) /\
  (out !! far (paired_key v) = Some x ->
     exists g1 g2, Re.search (paired_regex v) more = Some [g1; g2] /\
       token Re.Digit g2 /\ coerced (coerce v) g2 x).
Proof.
  intros Hd Hm Hp Hv.
  destruct (parse_lookup _ _ _ _ _ Hd Hm Hp) as [HA _].
  split; intros Hx; destruct (HA _ _ Hx) as [(w & Hw & E)|(w & Hw & Hwr)].
  - destruct (basic_key_not_paired w (paired_key v) Hw) as [H _]. congruence.
  - destruct Hwr as (g1 & g2 & x1 & x2 & Hs & T1 & T2 & C1 & C2 & [[E ->]|[E _]]).
    + apply near_inj in E. apply paired_key_inj in E; [subst w|assumption..].
      now exists g1, g2.
    + now apply near_far_ne in E.
  - destruct (basic_key_not_paired w (paired_key v) Hw) as [_ H]. congruence.
  - destruct Hwr as (g1 & g2 & x1 & x2 & Hs & T1 & T2 & C1 & C2 & [[E _]|[E ->]]).
    + symmetry in E. now apply near_far_ne in E.
    + apply far_inj in E. apply paired_key_inj in E; [subst w|assumption..].
      now exists g1, g2.
Qed.

Lemma bool_of_token k g : token k g -> Py.bool g = true.
Proof. intros [Hne _]. destruct g; [now destruct Hne|reflexivity]. Qed.

(** C9: [bool] turns every token that is not empty into [True], and so in
    the record that [parse] returns every value found under the [_near] or
    [_far] key of a field coerced with [bool] is [True]. *)
Theorem flags_are_true basic more s out s' :
  data s = Some basic -> more_data s = Some more ->
  parse s = (Ok out, s') ->
  (forall g st, g <> EmptyString ->
     apply_coerce (Some CoerceBool) g st = (Ok (VBool true), st)) /\
  (forall v x, v ∈ VIGOR_130_MORE_VALUES -> coerce v = Some CoerceBool ->
     out !! near (paired_key v) = Some x \/
     out !! far (paired_key v) = Some x ->
     x = VBool true).
Proof.
  intros Hd Hm Hp. split.
  - intros [|c g] st Hne; [now destruct Hne|reflexivity].
  - intros v x Hv Hc Hx.
    destruct (paired_entry_origin _ _ _ _ _ v x Hd Hm Hp Hv) as [Hn Hf].
    destruct Hx as [Hx|Hx];
      [destruct (Hn Hx) as (g1 & g2 & _ & T & C)
      |destruct (Hf Hx) as (g1 & g2 & _ & T & C)];
      rewrite Hc in C; cbn in C; subst x; f_equal; eapply bool_of_token, T.
Qed.

Lemma flags_are_true_witness :
  exists out s',
    parse (with_blobs sample_basic sample_more) = (Ok out, s') /\
    out !! near (paired_key (flag "Bitswap")) = Some (VBool true).
Proof.
  destruct (parse (with_blobs sample_basic sample_more)) as [r s'] eqn:E.
  assert (Hok : is_Ok r = true).
  { change r with (fst (r, s')). rewrite <- E. vm_compute. reflexivity. }
  destruct r as [out|e]; [|discriminate Hok].
  exists out, s'. split; [reflexivity|].
  assert (Hsome : is_Some (out !! near (paired_key (flag "Bitswap")))).
  { refine (proj1 (proj2 (parse_lookup (with_blobs sample_basic sample_more)
              out s' sample_basic sample_more eq_refl eq_refl E)
              (flag "Bitswap") _ _)).
    - apply list_elem_of_In. vm_compute. tauto.
    - vm_compute. eauto. }
  destruct Hsome as [x Hx]. rewrite Hx. f_equal.
  apply (proj2 (flags_are_true sample_basic sample_more
                  (with_blobs sample_basic sample_more) out s'
                  eq_refl eq_refl E) (flag "Bitswap") x).
  - apply list_elem_of_In. vm_compute. tauto.
  - reflexivity.
  - now left.
Defined.




(** ** The FECS line *)

Lemma search_skip p pre rest :
  (forall i, (i < String.length pre)%nat ->
     Re.match_here p (Py.drop i (pre +:+ rest)) = None) ->
  Re.search p (pre +:+ rest) = Re.search p rest.
Proof.
  induction pre as [|c pre IH]; intros H; [reflexivity|].
  rewrite app_cons. cbn [Re.search].
  pose proof (H O ltac:(simpl; lia)) as H0.
  rewrite app_cons in H0. cbn [Py.drop] in H0. rewrite H0.
  apply IH. intros i Hi.
  specialize (H (S i) ltac:(simpl; lia)). now rewrite app_cons in H.
Qed.

Lemma fecs_line_match post :
  Re.search (paired_regex fecs) (fecs_line +:+ post) =
  Some ["345097"; "633047"].
Proof. vm_compute. reflexivity. Qed.

(** C7, as stated, fails: [re.search] stops at the leftmost match, so a
    blob that contains the line after an earlier line matching the same
    pattern yields the earlier line's numbers. *)
Lemma fecs_line_shadowed :
  Py.contains shadowed_more fecs_line = true /\
  found "forward_error_correction_seconds_near"
    (parse (with_blobs sample_basic shadowed_more)) = Some (VInt 1) /\
  found "forward_error_correction_seconds_far"
    (parse (with_blobs sample_basic shadowed_more)) = Some (VInt 2).
Proof. repeat split; vm_compute; reflexivity. Qed.

(** C7, amended: if the extended blob contains the line and no match of the
    FECS pattern starts before it, then the record that [parse] returns has
    the integer 345097 under [forward_error_correction_seconds_near] and
    the integer 633047 under [forward_error_correction_seconds_far]; the
    key comes from the field's description. *)
Theorem fecs_line_extracted basic pre post s out s' :
  data s = Some basic ->
  more_data s = Some (pre +:+ fecs_line +:+ post) ->
  (forall i, (i < String.length pre)%nat ->
     Re.match_here (paired_regex fecs)
       (Py.drop i (pre +:+ fecs_line +:+ post)) = None) ->
  parse s = (Ok out, s') ->
  out !! "forward_error_correction_seconds_near" = Some (VInt 345097) /\
  out !! "forward_error_correction_seconds_far" = Some (VInt 633047).
Proof.
  intros Hd Hm Hpre Hp.
  assert (Hs : Re.search (paired_regex fecs) (pre +:+ fecs_line +:+ post)
               = Some ["345097"; "633047"]).
  { rewrite search_skip by exact Hpre. apply fecs_line_match. }
  assert (Hin : fecs ∈ VIGOR_130_MORE_VALUES).
  { apply list_elem_of_In. vm_compute. tauto. }
  destruct (parse_lookup _ _ _ _ _ Hd Hm Hp) as [_ HC].
  destruct (HC fecs Hin) as [[x1 H1] [x2 H2]]; [rewrite Hs; eauto|].
  destruct (paired_entry_origin _ _ _ _ _ fecs x1 Hd Hm Hp Hin) as [Hn _].
  destruct (paired_entry_origin _ _ _ _ _ fecs x2 Hd Hm Hp Hin) as [_ Hf].
  destruct (Hn H1) as (g1 & g2 & E1 & _ & n1 & I1 & ->).
  destruct (Hf H2) as (g1' & g2' & E2 & _ & n2 & I2 & ->).
  rewrite Hs in E1, E2. injection E1 as <- <-. injection E2 as <- <-.
  vm_compute in I1, I2. injection I1 as <-. injection I2 as <-.
  split; [exact H1|exact H2].
Qed.

Lemma fecs_line_extracted_witness :
  exists out s',
    parse (with_blobs sample_basic (fecs_pre +:+ fecs_line +:+ CRLF))
      = (Ok out, s') /\
    out !! "forward_error_correction_seconds_near" = Some (VInt 345097) /\
    out !! "forward_error_correction_seconds_far" = Some (VInt 633047).
Proof.
  destruct (parse (with_blobs sample_basic (fecs_pre +:+ fecs_line +:+ CRLF)))
    as [r s'] eqn:E.
  assert (Hok : is_Ok r = true).
  { change r with (fst (r, s')). rewrite <- E. vm_compute. reflexivity. }
  destruct r as [out|e]; [|discriminate Hok].
  exists out, s'. split; [reflexivity|].
  apply (fecs_line_extracted sample_basic fecs_pre CRLF
           (with_blobs sample_basic (fecs_pre +:+ fecs_line +:+ CRLF))
           out s'); [reflexivity|reflexivity| |exact E].
  intros i Hi.
  do 41 (destruct i as [|i]; [vm_compute; reflexivity|]).
  vm_compute in Hi. lia.
Defined.

(** ** [read_until] *)

Lemma endswith_suffix s t :
  Py.endswith s t = true <-> exists p, s = p +:+ t.
Proof.
  split.
  - induction s as [|c s IH]; cbn [Py.endswith].
    + rewrite orb_false_r. intros ->%String.eqb_eq. now exists EmptyString.
    + intros [->%String.eqb_eq|H]%orb_true_iff; [now exists EmptyString|].
      destruct (IH H) as [p ->]. now exists (String c p).
  - intros [p ->]. induction p as [|c p IH].
    + change (EmptyString +:+ t) with t.
      destruct t; cbn [Py.endswith]; now rewrite String.eqb_refl.
    + rewrite app_cons. cbn [Py.endswith]. now rewrite IH, orb_true_r.
Qed.

(** C2, as stated, fails: every [read] rebinds [data], so a marker that
    arrives in two pieces is never seen, and what is returned on success is
    the last piece alone. *)
Lemma read_until_split_marker :
  Py.endswith ("Acc" +:+ "ount:") "Account:" = true /\
  fst (read_until "Account:" default_retries default_sleep
         (connected split_peer))
    = Raise (Exception "Did not find expected text") /\
  heard (snd (read_until "Account:" default_retries default_sleep
                (connected split_peer)))
    = ["Acc"; "ount:"; ""; ""; ""] /\
  fst (read_until "Account:" default_retries default_sleep
         (connected banner_peer))
    = Ok "Account:".
Proof. split; [|split; [|split]]; vm_compute; reflexivity. Qed.

Lemma read_heard n s chunk s1 :
  read n s = (Ok chunk, s1) -> heard s1 = heard s ++ [chunk].
Proof.
  unfold read. destruct (pending s) as [|[lat txt|lat e] rest].
  - now intros [= <- <-].
  - destruct (String.length txt <=? n)%nat; now intros [= <- <-].
  - discriminate.
Qed.

(** C2, amended: [read_until] looks at the text of each [read] on its own.
    When it returns, what it returns is the text of the last [read] it
    made, of which the marker is a suffix; the texts of the reads before
    it, fewer than [retries] and none of them ending with the marker, are
    not part of the result. *)
Theorem read_until_last_chunk text retries sleep_ms s buf s' :
  read_until text retries sleep_ms s = (Ok buf, s') ->
  (exists p, buf = p +:+ text) /\
  (exists earlier,
     heard s' = heard s ++ earlier ++ [buf] /\
     (length earlier < retries)%nat /\
     Forall (fun chunk => Py.endswith chunk text = false) earlier).
Proof.
  revert s. induction retries as [|n IH]; intros s; [discriminate|].
  cbn [read_until]. rewrite bind_unfold.
  destruct (read 1024 s) as [[chunk|e] s1] eqn:E; [|discriminate].
  apply read_heard in E.
  destruct (Py.endswith chunk text) eqn:Hend.
  - intros [= <- <-]. split; [now apply endswith_suffix|].
    exists []. split; [exact E|]. split; [simpl; lia|constructor].
  - rewrite bind_unfold. cbn [sleep]. intros H.
    destruct (IH _ H) as (Hsuf & earlier & Hh & Hlen & Hall).
    split; [exact Hsuf|]. exists (chunk :: earlier).
    split; [|split].
    + rewrite Hh. cbn [heard tick]. rewrite E, <- app_assoc. reflexivity.
    + simpl. lia.
    + now constructor.
Qed.

Lemma read_until_last_chunk_witness :
  exists s',
    read_until "Account:" default_retries default_sleep
      (connected banner_peer) = (Ok "Account:", s') /\
    heard s' = ["Vigor130 login"; "Account:"] /\
    exists earlier,
      heard s' = heard (connected banner_peer) ++ earlier ++ ["Account:"] /\
      (length earlier < default_retries)%nat /\
      Forall (fun chunk => Py.endswith chunk "Account:" = false) earlier.
Proof.
  eexists. split; [vm_compute; reflexivity|]. split; [reflexivity|].
  eapply (read_until_last_chunk "Account:" default_retries default_sleep
            (connected banner_peer)).
  vm_compute. reflexivity.
Defined.

(** The loop makes at most [retries] reads: what it leaves pending is what
    was pending after that many events at most. *)
Lemma read_until_reads text sleep_ms retries : forall s r s',
  read_until text retries sleep_ms s = (r, s') ->
  (length (pending s) <= length (pending s') + retries)%nat.
Proof.
  induction retries as [|n IH]; intros s r s'.
  - intros [= _ <-]. lia.
  - cbn [read_until]. rewrite bind_unfold.
    destruct (read 1024 s) as [[chunk|e] s1] eqn:E.
    + assert (Hs1 : (length (pending s) <= S (length (pending s1)))%nat).
      { unfold read in E. destruct (pending s) as [|[lat txt|lat e] rest].
        - injection E as _ <-. simpl. lia.
        - destruct (String.length txt <=? 1024)%nat;
            injection E as _ <-; simpl; lia.
        - discriminate. }
      destruct (Py.endswith chunk text).
      * intros [= _ <-]. lia.
      * rewrite bind_unfold. cbn [sleep]. intros H. apply IH in H.
        cbn in H. lia.
    + intros [= _ <-]. unfold read in E.
      destruct (pending s) as [|[lat txt|lat e'] rest]; [discriminate| |].
      * destruct (String.length txt <=? 1024)%nat; discriminate.
      * injection E as _ <-. simpl. lia.
Qed.

(** C3: the wait is bounded by the retry counter, not by a deadline. For
    every budget there is a peer with which [read_until], called with the
    defaults that are meant to add up to one second, gives up only after the
    budget has passed; it then raises a plain [Exception]. *)
Theorem read_until_wait_unbounded (budget : N) :
  exists s',
    read_until "Account:" default_retries default_sleep
      (connected (slow_peer (budget + 1)))
    = (Raise (Exception "Did not find expected text"), s') /\
    budget < clock s'.
Proof.
  eexists. split; [reflexivity|]. cbn. lia.
Qed.

Example read_until_ten_second_reads :
  let peer := [Recv 10000 CRLF; Recv 10000 CRLF; Recv 10000 CRLF;
               Recv 10000 CRLF; Recv 10000 CRLF] in
  let r := read_until "Account:" default_retries default_sleep
             (connected peer) in
  fst r = Raise (Exception "Did not find expected text") /\
  clock (snd r) = 51000.
Proof. split; vm_compute; reflexivity. Qed.

(** ** [get_vigor_stats] *)

Lemma silent_ret {A} (a : A) : silent (mret a).
Proof. now intros s r s' [= _ <-]. Qed.

Lemma silent_raise {A} e : silent (@raise A e).
Proof. now intros s r s' [= _ <-]. Qed.

Lemma silent_bind {A B} (m : M A) (f : A -> M B) :
  silent m -> (forall a, silent (f a)) -> silent (m ≫= f).
Proof.
  intros Hm Hf s r s'. rewrite bind_unfold.
  destruct (m s) as [[a|e] s1] eqn:E.
  - intros H. rewrite (Hf a _ _ _ H). eapply Hm, E.
  - intros [= _ <-]. eapply Hm, E.
Qed.

Lemma silent_read n : silent (read n).
Proof.
  intros s r s'. unfold read.
  destruct (pending s) as [|[lat txt|lat e] rest].
  - now intros [= _ <-].
  - destruct (String.length txt <=? n)%nat; now intros [= _ <-].
  - now intros [= _ <-].
Qed.

Lemma silent_write t : silent (write t).
Proof. now intros s r s' [= _ <-]. Qed.

Lemma silent_sleep ms : silent (sleep ms).
Proof. now intros s r s' [= _ <-]. Qed.

Lemma silent_logging l msg args : silent (logging l msg args).
Proof. now intros s r s' [= _ <-]. Qed.

Lemma silent_assign_data v : silent (assign_data v).
Proof. now intros s r s' [= _ <-]. Qed.

Lemma silent_assign_more_data v : silent (assign_more_data v).
Proof. now intros s r s' [= _ <-]. Qed.

Lemma silent_local_data : silent local_data.
Proof. now intros s r s' [= _ <-]. Qed.

Lemma silent_local_more_data : silent local_more_data.
Proof.
  intros s r s'. unfold local_more_data.
  destruct (more_data s); now intros [= _ <-].
Qed.

Lemma silent_len b : silent (len b).
Proof. destruct b; [apply silent_ret|apply silent_raise]. Qed.

Lemma silent_group gs i : silent (group gs i).
Proof.
  unfold group. destruct (nth_error gs (i - 1));
    [apply silent_ret|apply silent_raise].
Qed.

Lemma silent_apply_coerce c t : silent (apply_coerce c t).
Proof.
  destruct c as [[|]|]; cbn [apply_coerce]; [|apply silent_ret..].
  destruct (Py.int t); [apply silent_ret|apply silent_raise].
Qed.


Create HintDb silent.
#[local] Hint Resolve silent_ret silent_raise silent_read silent_write
  silent_sleep silent_logging silent_assign_data silent_assign_more_data
  silent_local_data silent_local_more_data silent_len silent_group
  silent_apply_coerce : silent.

Lemma silent_read_until text retries sleep_ms :
  silent (read_until text retries sleep_ms).
Proof.
  induction retries as [|n IH]; cbn [read_until]; [apply silent_raise|].
  apply silent_bind; [apply silent_read|]. intros chunk.
  destruct (Py.endswith chunk text); [apply silent_ret|].
  apply silent_bind; [apply silent_sleep|]. intros _. exact IH.
Qed.

Lemma silent_dialogue username password : silent (dialogue username password).
Proof.
  unfold dialogue.
  repeat first
    [ apply silent_read_until
    | solve [auto with silent]
    | apply silent_bind; [|intros] ].
Qed.

Lemma silent_basic_field blob value out : silent (basic_field blob value out).
Proof.
  unfold basic_field. destruct (negb _); [repeat first [solve [auto with silent] | apply silent_bind; [|intros]]|].
  destruct (Re.search _ _); repeat first [solve [auto with silent] | apply silent_bind; [|intros]].
Qed.

Lemma silent_paired_field blob value out :
  silent (paired_field blob value out).
Proof. unfold paired_field. destruct (Re.search _ _); repeat first [solve [auto with silent] | apply silent_bind; [|intros]]. Qed.

Lemma silent_for_each body values :
  (forall v out, silent (body v out)) ->
  forall out, silent (for_each body values out).
Proof.
  intros Hb. induction values as [|v values IH]; intros out;
    cbn [for_each]; [apply silent_ret|].
  apply silent_bind; [apply Hb|exact IH].
Qed.

Lemma silent_parse : silent parse.
Proof.
  unfold parse.
  apply silent_bind; [apply silent_local_data|]. intros d.
  apply silent_bind; [apply silent_len|]. intros [blob n].
  apply silent_bind; [apply silent_logging|]. intros _.
  apply silent_bind;
    [apply silent_for_each; intros; apply silent_basic_field|].
  intros output.
  apply silent_bind; [apply silent_local_more_data|]. intros m.
  apply silent_bind; [apply silent_len|]. intros [more n'].
  apply silent_bind; [apply silent_logging|]. intros _.
  apply silent_for_each. intros. apply silent_paired_field.
Qed.


(** When the dialogue fails with an exception that [except Exception]
    catches, the handler logs it and control falls through to [parse]. *)
Lemma failed_dialogue_falls_through username password s e s1 :
  dialogue username password (snd (assign_data None (snd (new_frame s))))
    = (Raise e, s1) ->
  is_Exception e = true ->
  get_vigor_stats username password s =
  (parse ≫= print)
    (snd (logging ERROR "Could not process output from modem" [] s1)).
Proof.
  intros Hd He. unfold get_vigor_stats. rewrite bind_unfold.
  cbn [new_frame]. cbn [new_frame assign_data snd] in Hd.
  rewrite bind_unfold. cbn [assign_data].
  rewrite bind_unfold. unfold try_except at 1. rewrite Hd, He.
  reflexivity.
Qed.

(** An exception that [except Exception] does not catch ends the coroutine
    at once. *)
Lemma cancelled_dialogue_aborts username password s e s1 :
  dialogue username password (snd (assign_data None (snd (new_frame s))))
    = (Raise e, s1) ->
  is_Exception e = false ->
  get_vigor_stats username password s = (Raise e, s1).
Proof.
  intros Hd He. unfold get_vigor_stats. rewrite bind_unfold.
  cbn [new_frame]. cbn [new_frame assign_data snd] in Hd.
  rewrite bind_unfold. cbn [assign_data].
  rewrite bind_unfold. unfold try_except at 1. now rewrite Hd, He.
Qed.

(** C1: a failed handshake does not stop the coroutine before [parse].
    With a peer that has closed, the exception of [read_until] is logged
    and [parse] then raises [TypeError] on [len(None)]; with a peer that
    resets the connection after the first blob, the whole first loop runs
    on that blob before [more_data] is found unbound. In both runs nothing
    is printed. *)
Theorem handshake_failure_reaches_parse :
  let closed := get_vigor_stats "admin" "admin" (connected []) in
  let reset := get_vigor_stats "admin" "admin" (connected reset_peer) in
  (fst closed = Raise TypeError /\
   log (snd closed) =
     [(DEBUG, "Waiting for username request", []);
      (ERROR, "Could not process output from modem", [])] /\
   stdout (snd closed) = []) /\
  (fst reset = Raise UnboundLocalError /\
   In (ERROR, "Could not process output from modem", []) (log (snd reset)) /\
   In (INFO, "Parsing %d bytes of basic output",
       [ArgLen (String.length sample_basic)]) (log (snd reset)) /\
   In (ERROR, "Could not find %s in data", [ArgStr "Xdsl Reset Times"])
      (log (snd reset)) /\
   stdout (snd reset) = []).
Proof.
  cbv zeta. split; [split; [|split]|split; [|split; [|split; [|split]]]].
  all: vm_compute; first [reflexivity|tauto].
Qed.

(** * Further properties of the code *)

(** ** The first loop, field by field *)

Lemma basic_match_groups value s gs :
  Re.match_here (basic_regex value) s = Some gs ->
  exists g, gs = [g] /\ token Re.Word g.
Proof.
  unfold basic_regex. cbn [app Re.match_here].
  destruct (Py.startswith s (label value)); [|discriminate].
  intros H. apply plus_inv in H as [s1 H].
  destruct (Py.startswith s1 ":"); [|discriminate].
  apply plus_inv in H as [s2 H].
  destruct (Re.group _ _ s2) as [[g r]|] eqn:E; [|discriminate].
  injection H as <-. apply group_inv in E as [T [s3 H]].
  exists g. split; [|exact T]. f_equal.
  assert (Hone : forall s4, Re.match_here [Re.One Re.Space] s4 = Some r ->
                            r = []).
  { intros [|c s4]; cbn [Re.match_here]; [discriminate|].
    destruct (Re.in_class Re.Space c); [|discriminate]. now intros [= <-]. }
  destruct (unit value) as [u|]; [destruct (Py.truthy u)|]; eauto.
  cbn [Re.match_here] in H. apply plus_inv in H as [s4 H].
  destruct (Py.startswith s4 u); [|discriminate]. now injection H as <-.
Qed.

Lemma basic_search_groups value blob gs :
  Re.search (basic_regex value) blob = Some gs ->
  exists g, gs = [g] /\ token Re.Word g.
Proof.
  intros H. apply search_inv in H as [s H]. eapply basic_match_groups, H.
Qed.

(** The three things a turn of the first loop can do. *)
Lemma basic_field_cases blob value out s :
  (basic_skips blob value /\
   exists s', basic_field blob value out s = (Ok out, s')) \/
  (exists x, basic_writes blob value x /\
     basic_field blob value out s
       = (Ok (<[label_key (label value) := x]> out), s)) \/
  (basic_crashes blob value /\
   basic_field blob value out s = (Raise ValueError, s)).
Proof.
  unfold basic_field, basic_skips, basic_writes, basic_crashes.
  destruct (Py.contains blob (label value)) eqn:Hc; cbn [negb].
  2:{ left. split; [now left|]. eexists. reflexivity. }
  destruct (Re.search (basic_regex value) blob) as [gs|] eqn:Hs.
  2:{ left. split; [now right|]. eexists. reflexivity. }
  destruct (basic_search_groups _ _ _ Hs) as (g & -> & T).
  right. rewrite bind_unfold. cbn [group nth_error Nat.sub mret M_ret].
  rewrite bind_unfold. unfold apply_coerce.
  destruct (coerce value) as [[|]|] eqn:Hco.
  - destruct (Py.int g) as [n|] eqn:Hi.
    + left. exists (VInt n). split; [|reflexivity].
      split; [reflexivity|]. exists g. repeat split; try apply T.
      now exists n.
    + right. split; [|reflexivity]. split; [reflexivity|]. now exists g.
  - left. eexists. split; [|reflexivity].
    split; [reflexivity|]. exists g. repeat split; apply T.
  - left. eexists. split; [|reflexivity].
    split; [reflexivity|]. exists g. repeat split; apply T.
Qed.

Lemma coerced_functional c g x y : coerced c g x -> coerced c g y -> x = y.
Proof.
  destruct c as [[|]|]; cbn.
  - intros (n & Hn & ->) (m & Hm & ->). congruence.
  - congruence.
  - congruence.
Qed.

Lemma basic_writes_functional blob value x y :
  basic_writes blob value x -> basic_writes blob value y -> x = y.
Proof.
  intros (_ & g & Hg & _ & Cx) (_ & g' & Hg' & _ & Cy).
  rewrite Hg in Hg'. injection Hg' as <-. eapply coerced_functional; eauto.
Qed.

Lemma basic_writes_not_crashes blob value x :
  basic_writes blob value x -> ~ basic_crashes blob value.
Proof.
  intros (_ & g & Hg & _ & C) (_ & g' & Hg' & Hco & Hi).
  rewrite Hg in Hg'. injection Hg' as <-. rewrite Hco in C.
  destruct C as (n & Hn & _). congruence.
Qed.

Lemma basic_skips_not_crashes blob value :
  basic_skips blob value -> ~ basic_crashes blob value.
Proof. intros [H|H] (Hc & g & Hg & _); congruence. Qed.

Lemma basic_skips_not_writes blob value x :
  basic_skips blob value -> ~ basic_writes blob value x.
Proof. intros [H|H] (Hc & g & Hg & _); congruence. Qed.

(** The first loop as a whole: where the entries of its record come from,
    what it is sure to hold, and when it raises. *)
Lemma for_each_basic_ok blob values : forall out s out' s',
  for_each (basic_field blob) values out s = (Ok out', s') ->
  (forall k x, out' !! k = Some x ->
     out !! k = Some x \/
     exists v, v ∈ values /\ k = label_key (label v) /\
               basic_writes blob v x) /\
  (forall k, is_Some (out !! k) -> is_Some (out' !! k)) /\
  (forall v x, v ∈ values -> basic_writes blob v x ->
     is_Some (out' !! label_key (label v))) /\
  (forall v, v ∈ values -> ~ basic_crashes blob v).
Proof.
  induction values as [|v values IH]; intros out s out' s'.
  - cbn. intros [= <- _]. repeat split; auto.
    + intros w x Hw. inversion Hw.
    + intros w Hw. inversion Hw.
  - cbn [for_each]. rewrite bind_unfold.
    destruct (basic_field_cases blob v out s)
      as [[Hsk [s1 E]]|[(x & Hwr & E)|[Hcr E]]]; rewrite E; [| |discriminate].
    + intros H. destruct (IH _ _ _ _ H) as (HA & HB & HC & HD).
      split; [|split; [|split]].
      * intros k y Hk. destruct (HA k y Hk) as [?|(w & Hw & Hrest)];
          [now left|right].
        exists w. split; [now apply elem_of_cons; right|exact Hrest].
      * exact HB.
      * intros w y [->|Hw]%elem_of_cons Hy; [|now apply (HC w y)].
        now destruct (basic_skips_not_writes _ _ y Hsk).
      * intros w [->|Hw]%elem_of_cons; [|now apply HD].
        now apply basic_skips_not_crashes.
    + intros H. destruct (IH _ _ _ _ H) as (HA & HB & HC & HD).
      split; [|split; [|split]].
      * intros k y Hk. destruct (HA k y Hk) as [H1|(w & Hw & Hrest)].
        -- apply lookup_insert_Some in H1 as [[<- <-]|[_ H1]]; [|now left].
           right. exists v. split; [apply elem_of_cons; now left|].
           split; [reflexivity|exact Hwr].
        -- right. exists w.
           split; [now apply elem_of_cons; right|exact Hrest].
      * intros k Hk. apply HB. rewrite lookup_insert_is_Some'. auto.
      * intros w y [->|Hw]%elem_of_cons Hy; [|now apply (HC w y)].
        apply HB. rewrite lookup_insert_is_Some'. auto.
      * intros w [->|Hw]%elem_of_cons; [|now apply HD].
        eapply basic_writes_not_crashes, Hwr.
Qed.

Lemma for_each_basic_raise blob values : forall out s e s',
  for_each (basic_field blob) values out s = (Raise e, s') ->
  e = ValueError /\ exists v, v ∈ values /\ basic_crashes blob v.
Proof.
  induction values as [|v values IH]; intros out s e s'; [discriminate|].
  cbn [for_each]. rewrite bind_unfold.
  destruct (basic_field_cases blob v out s)
    as [[Hsk [s1 E]]|[(x & Hwr & E)|[Hcr E]]]; rewrite E.
  - intros H. destruct (IH _ _ _ _ H) as (-> & w & Hw & Hc).
    split; [reflexivity|]. exists w. split; [now apply elem_of_cons; right|].
    exact Hc.
  - intros H. destruct (IH _ _ _ _ H) as (-> & w & Hw & Hc).
    split; [reflexivity|]. exists w. split; [now apply elem_of_cons; right|].
    exact Hc.
  - intros [= <- _]. split; [reflexivity|]. exists v.
    split; [apply elem_of_cons; now left|exact Hcr].
Qed.

(** ** [parse], entry by entry *)

Lemma basic_keys_distinct : List.NoDup basic_keys.
Proof.
  apply (NoDup_ListNoDup basic_keys).
  apply (bool_decide_unpack _). vm_compute. exact I.
Qed.

Lemma label_key_inj v w :
  v ∈ VIGOR_130_VALUES -> w ∈ VIGOR_130_VALUES ->
  label_key (label v) = label_key (label w) -> v = w.
Proof.
  intros Hv Hw. apply list_elem_of_In in Hv, Hw.
  now apply (injective_on_NoDup (fun f => label_key (label f)) _
               basic_keys_distinct).
Qed.

(** With both blobs at hand [parse] is the two loops, one after the
    other. *)
Lemma parse_run s basic more :
  data s = Some basic -> more_data s = Some more ->
  parse s =
  match for_each (basic_field basic) VIGOR_130_VALUES ∅
          (snd (logging INFO "Parsing %d bytes of basic output"
                  [ArgLen (String.length basic)] s)) with
  | (Ok out0, s2) =>
      for_each (paired_field more) VIGOR_130_MORE_VALUES out0
        (snd (logging INFO "Parsing %d bytes of extended output"
                [ArgLen (String.length more)] s2))
  | (Raise e, s2) => (Raise e, s2)
  end.
Proof.
  intros Hd Hm. unfold parse.
  rewrite bind_unfold. cbn [local_data]. rewrite Hd.
  rewrite bind_unfold. cbn [len mret M_ret]. rewrite bind_unfold.
  cbn [logging snd]. rewrite bind_unfold.
  match goal with
  | |- context [for_each (basic_field basic) _ _ ?s1] =>
      destruct (for_each (basic_field basic) VIGOR_130_VALUES ∅ s1)
        as [[out0|e] s2] eqn:E1; [|reflexivity];
      pose proof (for_each_basic_locals _ _ _ _ _ _ E1) as Hl; cbn in Hl
  end.
  assert (Hm2 : more_data s2 = Some more) by congruence.
  rewrite bind_unfold. unfold local_more_data at 1. rewrite Hm2.
  rewrite bind_unfold. cbn [len mret M_ret]. rewrite bind_unfold.
  cbn [logging snd]. rewrite ?Hm2. reflexivity.
Qed.

Lemma parse_loops s basic more out s' :
  data s = Some basic -> more_data s = Some more ->
  parse s = (Ok out, s') ->
  exists out0 s1 s2 s3,
    for_each (basic_field basic) VIGOR_130_VALUES ∅ s1 = (Ok out0, s2) /\
    for_each (paired_field more) VIGOR_130_MORE_VALUES out0 s3 = (Ok out, s').
Proof.
  intros Hd Hm. rewrite (parse_run s basic more Hd Hm).
  destruct (for_each (basic_field basic) _ _ _) as [[out0|e] s2] eqn:E1;
    [|discriminate].
  intros H. eauto 8.
Qed.

(** Where an entry of the record comes from. *)
Lemma entry_origin basic more s out s' k x :
  data s = Some basic -> more_data s = Some more ->
  parse s = (Ok out, s') ->
  out !! k = Some x ->
  (exists v, v ∈ VIGOR_130_VALUES /\ k = label_key (label v) /\
             basic_writes basic v x) \/
  (exists v, v ∈ VIGOR_130_MORE_VALUES /\ writes more v k x).
Proof.
  intros Hd Hm Hp Hk.
  destruct (parse_loops _ _ _ _ _ Hd Hm Hp) as (out0 & s1 & s2 & s3 & E1 & E2).
  destruct (for_each_paired _ _ _ _ _ _ E2) as (HA & _).
  destruct (HA k x Hk) as [H0|Hw]; [left|now right].
  destruct (for_each_basic_ok _ _ _ _ _ _ E1) as (HA0 & _).
  destruct (HA0 k x H0) as [He|Hv]; [|exact Hv].
  now rewrite lookup_empty in He.
Qed.

(** X1. Every entry of the record that [parse] returns was stored by a
    field of one of the two tables, under that field's key, from a token
    the field's pattern captured in its blob. *)
Theorem record_entry_origin basic more s out s' k x :
  data s = Some basic -> more_data s = Some more ->
  parse s = (Ok out, s') ->
  out !! k = Some x ->
  (exists v, v ∈ VIGOR_130_VALUES /\ k = label_key (label v) /\
             basic_writes basic v x) \/
  (exists v, v ∈ VIGOR_130_MORE_VALUES /\ writes more v k x).
Proof. exact (entry_origin basic more s out s' k x). Qed.

Lemma record_entry_origin_witness :
  exists v, v ∈ VIGOR_130_VALUES /\ "state" = label_key (label v) /\
            basic_writes sample_basic v (VStr "SHOWTIME").
Proof.
  destruct (parse (with_blobs sample_basic sample_more)) as [r s'] eqn:E.
  assert (Hok : is_Ok r = true).
  { change r with (fst (r, s')). rewrite <- E. vm_compute. reflexivity. }
  destruct r as [out|e]; [|discriminate Hok].
  assert (Hk : out !! "state" = Some (VStr "SHOWTIME")).
  { change (found "state" (Ok out, s') = Some (VStr "SHOWTIME")).
    rewrite <- E. vm_compute. reflexivity. }
  destruct (record_entry_origin sample_basic sample_more
              (with_blobs sample_basic sample_more) out s' "state"
              (VStr "SHOWTIME") eq_refl eq_refl E Hk)
    as [H|(v & Hv & Hw)]; [exact H|].
  exfalso.
  destruct Hw as (g1 & g2 & x1 & x2 & _ & _ & _ & _ & _ & [[Hn _]|[Hf _]]).
  - apply (f_equal (fun t => Py.endswith t "_near")) in Hn.
    rewrite (proj1 (near_ends _)) in Hn. discriminate Hn.
  - apply (f_equal (fun t => Py.endswith t "_far")) in Hf.
    rewrite (proj1 (far_ends _)) in Hf. discriminate Hf.
Defined.

Lemma basic_entry_value basic more s out s' v :
  data s = Some basic -> more_data s = Some more ->
  parse s = (Ok out, s') ->
  v ∈ VIGOR_130_VALUES ->
  forall x, out !! label_key (label v) = Some x -> basic_writes basic v x.
Proof.
  intros Hd Hm Hp Hv x Hx.
  destruct (entry_origin _ _ _ _ _ _ _ Hd Hm Hp Hx)
    as [(w & Hw & E & Hwr)|(w & Hw & Hwr)].
  - apply label_key_inj in E; [now subst w|assumption..].
  - destruct Hwr as (g1 & g2 & x1 & x2 & _ & _ & _ & _ & _ & [[E _]|[E _]]).
    + now destruct (basic_key_not_paired v (paired_key w) Hv).
    + now destruct (basic_key_not_paired v (paired_key w) Hv).
Qed.

(** X2. A field of the first table whose label is in the blob and whose
    pattern captures a token the field's coercion accepts ends up in the
    record under the normalized label, with the coerced token as value: no
    later field and nothing in the second loop overwrites it. *)
Theorem basic_value_stored basic more s out s' v x :
  data s = Some basic -> more_data s = Some more ->
  parse s = (Ok out, s') ->
  v ∈ VIGOR_130_VALUES -> basic_writes basic v x ->
  out !! label_key (label v) = Some x.
Proof.
  intros Hd Hm Hp Hv Hwr.
  destruct (parse_loops _ _ _ _ _ Hd Hm Hp) as (out0 & s1 & s2 & s3 & E1 & E2).
  destruct (for_each_basic_ok _ _ _ _ _ _ E1) as (_ & _ & HC & _).
  destruct (for_each_paired _ _ _ _ _ _ E2) as (_ & HB & _).
  destruct (HB _ (HC v x Hv Hwr)) as [y Hy]. rewrite Hy. f_equal.
  eapply basic_writes_functional; [|exact Hwr].
  eapply basic_entry_value; eauto.
Qed.

Lemma basic_value_stored_witness :
  exists out s',
    parse (with_blobs sample_basic sample_more) = (Ok out, s') /\
    out !! label_key (label (measure "DS Actual Rate" "bps"))
      = Some (VInt 79999000).
Proof.
  destruct (parse (with_blobs sample_basic sample_more)) as [r s'] eqn:E.
  assert (Hok : is_Ok r = true).
  { change r with (fst (r, s')). rewrite <- E. vm_compute. reflexivity. }
  destruct r as [out|e]; [|discriminate Hok].
  exists out, s'. split; [reflexivity|].
  apply (basic_value_stored sample_basic sample_more
           (with_blobs sample_basic sample_more) out s'
           (measure "DS Actual Rate" "bps") (VInt 79999000)
           eq_refl eq_refl E).
  - apply list_elem_of_In. vm_compute. tauto.
  - split; [vm_compute; reflexivity|]. exists "79999000".
    split; [vm_compute; reflexivity|].
    split; [split; [discriminate|vm_compute; reflexivity]|].
    exists 79999000%Z. split; [vm_compute; reflexivity|reflexivity].
Defined.

(** X3. A field that finds nothing leaves no key: when the label of a
    field of the first table is not in the blob, or its pattern has no
    match, the record has no entry under its key; when the pattern of a
    field of the second table has no match, the record has neither its
    [_near] nor its [_far] key. *)
Theorem unmatched_field_absent basic more s out s' :
  data s = Some basic -> more_data s = Some more ->
  parse s = (Ok out, s') ->
  (forall v, v ∈ VIGOR_130_VALUES -> basic_skips basic v ->
     out !! label_key (label v) = None) /\
  (forall v, v ∈ VIGOR_130_MORE_VALUES ->
     Re.search (paired_regex v) more = None ->
     out !! near (paired_key v) = None /\ out !! far (paired_key v) = None).
Proof.
  intros Hd Hm Hp. split.
  - intros v Hv Hsk.
    destruct (out !! label_key (label v)) as [x|] eqn:E; [|reflexivity].
    destruct (basic_skips_not_writes _ _ x Hsk).
    eapply basic_entry_value; eauto.
  - intros v Hv Hs. split.
    + destruct (out !! near (paired_key v)) as [x|] eqn:E; [|reflexivity].
      destruct (paired_entry_origin _ _ _ _ _ v x Hd Hm Hp Hv) as [Hn _].
      destruct (Hn E) as (g1 & g2 & Hs' & _). congruence.
    + destruct (out !! far (paired_key v)) as [x|] eqn:E; [|reflexivity].
      destruct (paired_entry_origin _ _ _ _ _ v x Hd Hm Hp Hv) as [_ Hf].
      destruct (Hf E) as (g1 & g2 & Hs' & _). congruence.
Qed.

Lemma unmatched_field_absent_witness :
  exists out s',
    parse (with_blobs sample_basic sample_more) = (Ok out, s') /\
    out !! label_key (label (counter "Xdsl Reset Times")) = None /\
    out !! near (paired_key (described "LOF" "Loss Of Frame Count")) = None /\
    out !! far (paired_key (described "LOF" "Loss Of Frame Count")) = None.
Proof.
  destruct (parse (with_blobs sample_basic sample_more)) as [r s'] eqn:E.
  assert (Hok : is_Ok r = true).
  { change r with (fst (r, s')). rewrite <- E. vm_compute. reflexivity. }
  destruct r as [out|e]; [|discriminate Hok].
  exists out, s'. split; [reflexivity|].
  destruct (unmatched_field_absent sample_basic sample_more
              (with_blobs sample_basic sample_more) out s'
              eq_refl eq_refl E) as [Hb Hp].
  split.
  - apply Hb.
    + apply list_elem_of_In. vm_compute. tauto.
    + left. vm_compute. reflexivity.
  - apply Hp.
    + apply list_elem_of_In. vm_compute. tauto.
    + vm_compute. reflexivity.
Defined.

(** X4. A field of the second table whose pattern matches ends up in the
    record under both keys: the first captured number, coerced, under
    [_near] and the second under [_far]. *)
Theorem paired_value_stored basic more s out s' v g1 g2 :
  data s = Some basic -> more_data s = Some more ->
  parse s = (Ok out, s') ->
  v ∈ VIGOR_130_MORE_VALUES ->
  Re.search (paired_regex v) more = Some [g1; g2] ->
  exists x1 x2,
    coerced (coerce v) g1 x1 /\ coerced (coerce v) g2 x2 /\
    out !! near (paired_key v) = Some x1 /\
    out !! far (paired_key v) = Some x2.
Proof.
  intros Hd Hm Hp Hv Hs.
  destruct (parse_lookup _ _ _ _ _ Hd Hm Hp) as [_ HC].
  destruct (HC v Hv) as [[x1 H1] [x2 H2]]; [rewrite Hs; eauto|].
  destruct (paired_entry_origin _ _ _ _ _ v x1 Hd Hm Hp Hv) as [Hn _].
  destruct (paired_entry_origin _ _ _ _ _ v x2 Hd Hm Hp Hv) as [_ Hf].
  destruct (Hn H1) as (a & b & E1 & _ & C1).
  destruct (Hf H2) as (a' & b' & E2 & _ & C2).
  rewrite Hs in E1, E2. injection E1 as <- <-. injection E2 as <- <-.
  now exists x1, x2.
Qed.

Lemma paired_value_stored_witness :
  exists out s' x1 x2,
    parse (with_blobs sample_basic sample_more) = (Ok out, s') /\
    coerced (Some CoerceInt) "45" x1 /\ coerced (Some CoerceInt) "12" x2 /\
    out !! near (paired_key (described "ES" "Errored Seconds")) = Some x1 /\
    out !! far (paired_key (described "ES" "Errored Seconds")) = Some x2.
Proof.
  destruct (parse (with_blobs sample_basic sample_more)) as [r s'] eqn:E.
  assert (Hok : is_Ok r = true).
  { change r with (fst (r, s')). rewrite <- E. vm_compute. reflexivity. }
  destruct r as [out|e]; [|discriminate Hok].
  destruct (paired_value_stored sample_basic sample_more
              (with_blobs sample_basic sample_more) out s'
              (described "ES" "Errored Seconds") "45" "12"
              eq_refl eq_refl E) as (x1 & x2 & H).
  - apply list_elem_of_In. vm_compute. tauto.
  - vm_compute. reflexivity.
  - exists out, s', x1, x2. split; [reflexivity|exact H].
Defined.

(** When [parse] raises although it has both blobs. *)
Lemma parse_bad_number basic more s :
  data s = Some basic -> more_data s = Some more ->
  (forall e, fst (parse s) = Raise e -> e = ValueError) /\
  (fst (parse s) = Raise ValueError <->
   (exists v, v ∈ VIGOR_130_VALUES /\ basic_crashes basic v) \/
   (exists v, v ∈ VIGOR_130_MORE_VALUES /\ paired_crashes more v)).
Proof.
  intros Hd Hm. rewrite (parse_run s basic more Hd Hm).
  destruct (for_each (basic_field basic) _ _ _) as [[out0|e] s2] eqn:E1.
  - match goal with
    | |- context [for_each (paired_field more) ?vs ?o ?s3] =>
        destruct (for_each (paired_field more) vs o s3)
          as [[out|e] s'] eqn:E2
    end.
    + split; [discriminate|]. split; [discriminate|].
      intros [(v & Hv & Hc)|(v & Hv & Hc)].
      * destruct (for_each_basic_ok _ _ _ _ _ _ E1) as (_ & _ & _ & HD).
        now destruct (HD v Hv).
      * destruct (for_each_paired _ _ _ _ _ _ E2) as (_ & _ & _ & HD).
        now destruct (HD v Hv).
    + destruct (for_each_paired_raise _ _ _ _ _ _ E2) as (-> & Hex).
      split; [now intros e [= <-]|]. split; [now right|reflexivity].
  - destruct (for_each_basic_raise _ _ _ _ _ _ E1) as (-> & Hex).
    split; [now intros e [= <-]|]. split; [now left|reflexivity].
Qed.

(** X5. With both blobs at hand, the only exception [parse] can raise is
    [ValueError], and it raises it exactly when [int] does not read what a
    field captured: the token of a field of the first table that is coerced
    with [int], or one of the two tokens of a field of the second table
    that is coerced with [int]; no record is returned then. *)
Theorem parse_raises_on_bad_number basic more s :
  data s = Some basic -> more_data s = Some more ->
  (forall e, fst (parse s) = Raise e -> e = ValueError) /\
  (fst (parse s) = Raise ValueError <->
   (exists v, v ∈ VIGOR_130_VALUES /\ basic_crashes basic v) \/
   (exists v, v ∈ VIGOR_130_MORE_VALUES /\ paired_crashes more v)).
Proof. exact (parse_bad_number basic more s). Qed.

Lemma parse_raises_on_bad_number_witness :
  fst (parse (with_blobs "NE CRC Count : none " "")) = Raise ValueError.
Proof.
  apply (proj2 (parse_raises_on_bad_number "NE CRC Count : none " ""
                  (with_blobs "NE CRC Count : none " "") eq_refl eq_refl)).
  left. exists (counter "NE CRC Count").
  split; [apply list_elem_of_In; vm_compute; tauto|].
  split; [vm_compute; reflexivity|]. exists "none".
  repeat split; vm_compute; reflexivity.
Defined.

(** ** Numbers in the record *)

Lemma word_facts c :
  Py.is_word c = true ->
  Py.is_int_space c = false /\ (Py.code c =? 43) = false /\
  (Py.code c =? 45) = false.
Proof.
  destruct c as [[] [] [] [] [] [] [] []]; vm_compute; intros H;
    try discriminate H; repeat split.
Qed.

Lemma digit_is_word c : Py.is_digit c = true -> Py.is_word c = true.
Proof.
  destruct c as [[] [] [] [] [] [] [] []]; vm_compute; intros H;
    try discriminate H; reflexivity.
Qed.

Lemma digit_token_is_word g : token Re.Digit g -> token Re.Word g.
Proof.
  intros [Hne Hall]. split; [exact Hne|].
  revert Hall. apply forall_chars_impl. exact digit_is_word.
Qed.

Lemma digits_nonneg s : forall acc prev n,
  (0 <= acc)%Z -> Py.digits acc prev s = Some n -> (0 <= n)%Z.
Proof.
  induction s as [|c s IH]; intros acc prev n Hacc; cbn [Py.digits].
  - destruct prev; [|discriminate]. now intros [= <-].
  - destruct (Py.is_digit c).
    + apply IH. unfold Py.digit_val. lia.
    + destruct ((Py.code c =? 95) && prev); [|discriminate].
      destruct s as [|d s]; [discriminate|].
      destruct (Py.is_digit d); [|discriminate]. now apply IH.
Qed.

Lemma rstrip_aux_word s :
  Py.forall_chars Py.is_word s = true -> s <> EmptyString ->
  Py.rstrip_aux Py.is_int_space s = Some s.
Proof.
  induction s as [|c s IH]; intros Hall Hne; [now destruct Hne|].
  simpl in Hall. apply andb_true_iff in Hall as [Hc Hs].
  cbn [Py.rstrip_aux]. destruct s as [|d s].
  - simpl. now destruct (word_facts c Hc) as [-> _].
  - rewrite IH; [reflexivity|exact Hs|discriminate].
Qed.

(** [int] never reads a negative number off a token of word characters:
    there is no sign among them. *)
Lemma int_of_word_nonneg g n :
  token Re.Word g -> Py.int g = Some n -> (0 <= n)%Z.
Proof.
  intros [Hne Hall]. destruct g as [|c g]; [now destruct Hne|].
  pose proof Hall as Hall'. simpl in Hall'.
  apply andb_true_iff in Hall' as [Hc _].
  destruct (word_facts c Hc) as (Hsp & Hplus & Hminus).
  unfold Py.int. cbn [Py.lstrip]. rewrite Hsp.
  unfold Py.rstrip. rewrite rstrip_aux_word by (exact Hall || discriminate).
  change (default EmptyString (Some (String c g))) with (String c g).
  cbv iota. rewrite Hplus, Hminus. unfold Py.within_limit.
  destruct (_ <=? _)%nat; [|discriminate].
  apply digits_nonneg. lia.
Qed.

Lemma coerced_int_nonneg c g n :
  token Re.Word g -> coerced c g (VInt n) -> (0 <= n)%Z.
Proof.
  intros T. destruct c as [[|]|]; cbn; [|discriminate..].
  intros (m & Hm & [= ->]). eapply int_of_word_nonneg; eauto.
Qed.

(** X6. No integer in the record is negative, whatever the device sent:
    neither pattern can capture a sign. *)
Theorem record_integers_nonneg basic more s out s' k n :
  data s = Some basic -> more_data s = Some more ->
  parse s = (Ok out, s') ->
  out !! k = Some (VInt n) -> (0 <= n)%Z.
Proof.
  intros Hd Hm Hp Hk.
  destruct (entry_origin _ _ _ _ _ _ _ Hd Hm Hp Hk)
    as [(v & _ & _ & _ & g & _ & T & C)|(v & _ & Hw)].
  - eapply coerced_int_nonneg; eauto.
  - destruct Hw as (g1 & g2 & x1 & x2 & _ & T1 & T2 & C1 & C2 & [[_ E]|[_ E]]);
      subst.
    + exact (coerced_int_nonneg _ g1 n (digit_token_is_word _ T1) C1).
    + exact (coerced_int_nonneg _ g2 n (digit_token_is_word _ T2) C2).
Qed.

Lemma record_integers_nonneg_witness :
  exists out s',
    parse (with_blobs sample_basic sample_more) = (Ok out, s') /\
    out !! "ds_actual_rate" = Some (VInt 79999000) /\ (0 <= 79999000)%Z.
Proof.
  destruct (parse (with_blobs sample_basic sample_more)) as [r s'] eqn:E.
  assert (Hok : is_Ok r = true).
  { change r with (fst (r, s')). rewrite <- E. vm_compute. reflexivity. }
  destruct r as [out|e]; [|discriminate Hok].
  assert (Hk : out !! "ds_actual_rate" = Some (VInt 79999000)).
  { change (found "ds_actual_rate" (Ok out, s') = Some (VInt 79999000)).
    rewrite <- E. vm_compute. reflexivity. }
  exists out, s'. split; [reflexivity|]. split; [exact Hk|].
  exact (record_integers_nonneg sample_basic sample_more
           (with_blobs sample_basic sample_more) out s' "ds_actual_rate"
           79999000 eq_refl eq_refl E Hk).
Defined.

(** ** What [parse] logs *)

Lemma basic_field_log blob value out s out' s' :
  basic_field blob value out s = (Ok out', s') ->
  log s' = log s ++ basic_diagnostic blob value.
Proof.
  unfold basic_field, basic_diagnostic, group, apply_coerce, logging.
  cbv [mbind M_bind mret M_ret raise].
  destruct (Py.contains blob (label value)); cbn [negb];
    [|now intros [= _ <-]].
  destruct (Re.search _ _) as [gs|]; [|now intros [= _ <-]].
  destruct (nth_error gs (1 - 1)) as [t|]; [|discriminate].
  destruct (coerce value) as [[|]|]; [destruct (Py.int t)|..];
    try discriminate; intros [= _ <-]; now rewrite app_nil_r.
Qed.

Lemma paired_field_log blob value out s r s' :
  paired_field blob value out s = (r, s') ->
  log s' = log s ++ paired_diagnostic blob value.
Proof.
  unfold paired_field, paired_diagnostic, group, apply_coerce, logging.
  cbv [mbind M_bind mret M_ret raise].
  destruct (Re.search _ _) as [gs|]; [|now intros [= _ <-]].
  destruct (nth_error gs (1 - 1)) as [t1|];
    [|intros [= _ <-]; now rewrite app_nil_r].
  assert (Hstep : forall (c : option coercion) t,
            match c with
            | Some CoerceInt =>
                match Py.int t with
                | Some n => fun s0 : st => (Ok (VInt n), s0)
                | None => fun s0 : st => (Raise ValueError, s0)
                end
            | Some CoerceBool => fun s0 : st => (Ok (VBool (Py.bool t)), s0)
            | None => fun s0 : st => (Ok (VStr t), s0)
            end s = (match c with
                     | Some CoerceInt =>
                         match Py.int t with
                         | Some n => Ok (VInt n)
                         | None => Raise ValueError
                         end
                     | Some CoerceBool => Ok (VBool (Py.bool t))
                     | None => Ok (VStr t)
                     end, s)).
  { intros [[|]|] t; [destruct (Py.int t)|..]; reflexivity. }
  rewrite Hstep.
  destruct (match coerce value with Some CoerceInt => _ | _ => _ end);
    [|intros [= _ <-]; now rewrite app_nil_r].
  destruct (nth_error gs (2 - 1)) as [t2|];
    [|intros [= _ <-]; now rewrite app_nil_r].
  rewrite Hstep.
  destruct (match coerce value with Some CoerceInt => _ | _ => _ end);
    intros [= _ <-]; now rewrite app_nil_r.
Qed.

Lemma for_each_basic_log blob values : forall out s out' s',
  for_each (basic_field blob) values out s = (Ok out', s') ->
  log s' = log s ++ flat_map (basic_diagnostic blob) values.
Proof.
  induction values as [|v values IH]; intros out s out' s'.
  - cbn. intros [= _ <-]. now rewrite app_nil_r.
  - cbn [for_each flat_map]. rewrite bind_unfold.
    destruct (basic_field blob v out s) as [[out1|e] s1] eqn:E;
      [|discriminate].
    intros H. rewrite (IH _ _ _ _ H), (basic_field_log _ _ _ _ _ _ E).
    now rewrite app_assoc.
Qed.

Lemma for_each_paired_log blob values : forall out s r s',
  for_each (paired_field blob) values out s = (r, s') ->
  is_Ok r = true ->
  log s' = log s ++ flat_map (paired_diagnostic blob) values.
Proof.
  induction values as [|v values IH]; intros out s r s'.
  - cbn. intros [= _ <-] _. now rewrite app_nil_r.
  - cbn [for_each flat_map]. rewrite bind_unfold.
    destruct (paired_field blob v out s) as [[out1|e] s1] eqn:E.
    + intros H Hok. rewrite (IH _ _ _ _ H Hok), (paired_field_log _ _ _ _ _ _ E).
      now rewrite app_assoc.
    + now intros [= <- _] Hok.
Qed.

(** X7. A run of [parse] that returns has logged, after the size of each
    blob, one error for every field that found nothing and none for the
    others, in the order of the tables: for the first table "Could not
    find" when the label is not in the blob and "Did not find information"
    when the label is there but the pattern has no match, for the second
    table "Did not find information". *)
Theorem parse_log basic more s out s' :
  data s = Some basic -> more_data s = Some more ->
  parse s = (Ok out, s') ->
  log s' =
    log s
    ++ [(INFO, "Parsing %d bytes of basic output",
         [ArgLen (String.length basic)])]
    ++ flat_map (basic_diagnostic basic) VIGOR_130_VALUES
    ++ [(INFO, "Parsing %d bytes of extended output",
         [ArgLen (String.length more)])]
    ++ flat_map (paired_diagnostic more) VIGOR_130_MORE_VALUES.
Proof.
  intros Hd Hm. rewrite (parse_run s basic more Hd Hm).
  destruct (for_each (basic_field basic) _ _ _) as [[out0|e] s2] eqn:E1;
    [|discriminate].
  intros H.
  rewrite (for_each_paired_log _ _ _ _ _ _ H eq_refl).
  cbn [logging snd log].
  rewrite (for_each_basic_log _ _ _ _ _ _ E1). cbn [logging snd log].
  now rewrite <- !app_assoc.
Qed.

Lemma parse_log_witness :
  exists out s',
    parse (with_blobs fecs_line fecs_line) = (Ok out, s') /\
    In (not_found (plain "State")) (log s') /\
    ~ In (no_information fecs) (log s').
Proof.
  destruct (parse (with_blobs fecs_line fecs_line)) as [r s'] eqn:E.
  assert (Hok : is_Ok r = true).
  { change r with (fst (r, s')). rewrite <- E. vm_compute. reflexivity. }
  destruct r as [out|e]; [|discriminate Hok].
  exists out, s'. split; [reflexivity|].
  rewrite (parse_log fecs_line fecs_line (with_blobs fecs_line fecs_line)
             out s' eq_refl eq_refl E).
  split.
  - vm_compute. tauto.
  - vm_compute. intros H.
    repeat (destruct H as [H|H]; [discriminate H|]). exact H.
Defined.

(** ** Invariants *)

Section Invariant.
Variable I : st -> Prop.

Lemma inv_ret {A} (a : A) : inv_keeps I (mret a).
Proof. now intros s r s' HI [= _ <-]. Qed.

Lemma inv_raise {A} e : inv_keeps I (@raise A e).
Proof. now intros s r s' HI [= _ <-]. Qed.

Lemma inv_bind {A B} (m : M A) (f : A -> M B) :
  inv_keeps I m -> (forall a, inv_keeps I (f a)) -> inv_keeps I (m ≫= f).
Proof.
  intros Hm Hf s r s' HI. rewrite bind_unfold.
  destruct (m s) as [[a|e] s1] eqn:E.
  - apply Hf. eapply Hm; eauto.
  - intros [= _ <-]. eapply Hm; eauto.
Qed.

Lemma inv_try_except body handler :
  inv_keeps I body -> inv_keeps I handler ->
  inv_keeps I (try_except body handler).
Proof.
  intros Hb Hh s r s' HI. unfold try_except.
  destruct (body s) as [[a|e] s1] eqn:E.
  - intros [= _ <-]. eapply Hb; eauto.
  - destruct (is_Exception e).
    + apply Hh. eapply Hb; eauto.
    + intros [= _ <-]. eapply Hb; eauto.
Qed.

Lemma inv_for_each body values :
  (forall v out, v ∈ values -> inv_keeps I (body v out)) ->
  forall out, inv_keeps I (for_each body values out).
Proof.
  induction values as [|v values IH]; intros Hb out; cbn [for_each].
  - apply inv_ret.
  - apply inv_bind.
    + apply Hb. apply elem_of_cons. now left.
    + apply IH. intros w o Hw. apply Hb. apply elem_of_cons. now right.
Qed.

Lemma inv_len b : inv_keeps I (len b).
Proof. destruct b; [apply inv_ret|apply inv_raise]. Qed.

Lemma inv_group gs i : inv_keeps I (group gs i).
Proof.
  unfold group. destruct (nth_error gs (i - 1)); [apply inv_ret|apply inv_raise].
Qed.

Lemma inv_apply_coerce c t : inv_keeps I (apply_coerce c t).
Proof.
  destruct c as [[|]|]; cbn [apply_coerce]; [|apply inv_ret..].
  destruct (Py.int t); [apply inv_ret|apply inv_raise].
Qed.

Lemma inv_local_data : inv_keeps I local_data.
Proof. now intros s r s' HI [= _ <-]. Qed.

Lemma inv_local_more_data : inv_keeps I local_more_data.
Proof.
  intros s r s' HI. unfold local_more_data.
  destruct (more_data s); now intros [= _ <-].
Qed.

(** The two loops and [parse] keep an invariant that every [logging] call
    they make keeps. *)
Hypothesis inv_info : forall msg n, inv_keeps I (logging INFO msg [ArgLen n]).
Hypothesis inv_error : forall msg v,
  v ∈ VIGOR_130_VALUES ++ VIGOR_130_MORE_VALUES ->
  inv_keeps I (logging ERROR msg [ArgStr (label v)]).

Lemma inv_basic_field blob value out :
  value ∈ VIGOR_130_VALUES -> inv_keeps I (basic_field blob value out).
Proof.
  intros Hv. assert (Hin : value ∈ VIGOR_130_VALUES ++ VIGOR_130_MORE_VALUES)
    by (apply elem_of_app; now left).
  unfold basic_field. destruct (negb _).
  - apply inv_bind; [now apply inv_error|]. intros _. apply inv_ret.
  - destruct (Re.search _ _).
    + apply inv_bind; [apply inv_group|]. intros t.
      apply inv_bind; [apply inv_apply_coerce|]. intros x. apply inv_ret.
    + apply inv_bind; [now apply inv_error|]. intros _. apply inv_ret.
Qed.

Lemma inv_paired_field blob value out :
  value ∈ VIGOR_130_MORE_VALUES -> inv_keeps I (paired_field blob value out).
Proof.
  intros Hv. assert (Hin : value ∈ VIGOR_130_VALUES ++ VIGOR_130_MORE_VALUES)
    by (apply elem_of_app; now right).
  unfold paired_field. destruct (Re.search _ _).
  - apply inv_bind; [apply inv_group|]. intros t1.
    apply inv_bind; [apply inv_apply_coerce|]. intros x1.
    apply inv_bind; [apply inv_group|]. intros t2.
    apply inv_bind; [apply inv_apply_coerce|]. intros x2. apply inv_ret.
  - apply inv_bind; [now apply inv_error|]. intros _. apply inv_ret.
Qed.

Lemma inv_parse : inv_keeps I parse.
Proof.
  unfold parse.
  apply inv_bind; [apply inv_local_data|]. intros d.
  apply inv_bind; [apply inv_len|]. intros [blob n].
  apply inv_bind; [apply inv_info|]. intros _.
  apply inv_bind;
    [apply inv_for_each; intros; now apply inv_basic_field|].
  intros output.
  apply inv_bind; [apply inv_local_more_data|]. intros m.
  apply inv_bind; [apply inv_len|]. intros [more n'].
  apply inv_bind; [apply inv_info|]. intros _.
  apply inv_for_each. intros. now apply inv_paired_field.
Qed.
End Invariant.

(** [parse] changes nothing in the state but the log. *)
Lemma parse_keeps s r s' :
  parse s = (r, s') ->
  pending s' = pending s /\ clock s' = clock s /\ written s' = written s /\
  heard s' = heard s /\ stdout s' = stdout s /\ data s' = data s /\
  more_data s' = more_data s.
Proof.
  intros H.
  assert (Hf : frame s' = frame s).
  { apply (inv_parse (fun t => frame t = frame s)) with (s := s) (r := r);
      [| |reflexivity|exact H].
    - intros msg n t r0 t' Ht [= _ <-]. exact Ht.
    - intros msg v _ t r0 t' Ht [= _ <-]. exact Ht. }
  unfold frame in Hf. injection Hf as -> -> -> -> -> -> ->. repeat split.
Qed.

(** X8. [parse] only logs: whether it returns a record or raises, it has
    read nothing, written nothing, let no time pass, printed nothing and
    left both blobs as they were. *)
Theorem parse_only_logs s r s' :
  parse s = (r, s') ->
  pending s' = pending s /\ clock s' = clock s /\ written s' = written s /\
  heard s' = heard s /\ stdout s' = stdout s /\ data s' = data s /\
  more_data s' = more_data s.
Proof. exact (parse_keeps s r s'). Qed.

Lemma parse_only_logs_witness :
  pending (snd (parse (connected reset_peer))) = reset_peer /\
  stdout (snd (parse (with_blobs sample_basic sample_more))) = [].
Proof.
  split.
  - destruct (parse (connected reset_peer)) as [r s'] eqn:E.
    exact (proj1 (parse_only_logs _ _ _ E)).
  - destruct (parse (with_blobs sample_basic sample_more)) as [r s'] eqn:E.
    exact (proj1 (proj2 (proj2 (proj2 (proj2 (parse_only_logs _ _ _ E)))))).
Defined.

(** ** The dialogue *)

Lemma steps_bind {A B} ws1 ws2 t1 t2 b (m : M A) (f : A -> M B) :
  steps ws1 t1 false m -> (forall a, steps ws2 t2 b (f a)) ->
  steps (ws1 ++ ws2) (t1 + t2) b (m ≫= f).
Proof.
  intros Hm Hf s r s'. rewrite bind_unfold.
  destruct (m s) as [[a|e] s1] eqn:E.
  - intros H.
    destruct (Hm _ _ _ E) as ((sent1 & rest1 & E1 & W1 & R1) & T1 & M1).
    destruct (Hf a _ _ _ H) as ((sent2 & rest2 & E2 & W2 & R2) & T2 & M2).
    rewrite (R1 eq_refl), app_nil_r in E1. subst ws1.
    split; [|split].
    + exists (sent1 ++ sent2), rest2. split; [|split].
      * rewrite E2. now rewrite app_assoc.
      * rewrite W2, W1. now rewrite app_assoc.
      * exact R2.
    + intros Hok. specialize (T1 eq_refl). specialize (T2 Hok). lia.
    + intros Hb. rewrite (M2 Hb). apply M1. now right.
  - intros [= <- <-].
    destruct (Hm _ _ _ E) as ((sent1 & rest1 & E1 & W1 & R1) & T1 & M1).
    split; [|split].
    + exists sent1, (rest1 ++ ws2). split; [|split].
      * rewrite E1. now rewrite app_assoc.
      * exact W1.
      * discriminate.
    + discriminate.
    + intros _. apply M1. now right.
Qed.

(** A step that sends nothing and leaves [more_data] alone. *)
Lemma steps_quiet {A} (m : M A) t :
  (forall s r s', m s = (r, s') ->
     written s' = written s /\ more_data s' = more_data s /\
     (is_Ok r = true -> clock s + t <= clock s')) ->
  steps [] t false m.
Proof.
  intros H s r s' E. destruct (H _ _ _ E) as (W & Mo & T).
  split; [|split].
  - exists [], []. split; [reflexivity|]. split; [|reflexivity].
    now rewrite app_nil_r.
  - exact T.
  - intros _. exact Mo.
Qed.

Lemma steps_logging l msg args : steps [] 0 false (logging l msg args).
Proof.
  apply steps_quiet. intros s r s' [= _ <-]. cbn. repeat split. lia.
Qed.

Lemma steps_sleep ms : steps [] ms false (sleep ms).
Proof.
  apply steps_quiet. intros s r s' [= _ <-]. cbn. repeat split. lia.
Qed.

Lemma steps_assign_data v : steps [] 0 false (assign_data v).
Proof.
  apply steps_quiet. intros s r s' [= _ <-]. cbn. repeat split. lia.
Qed.

Lemma read_quiet n s r s' :
  read n s = (r, s') ->
  written s' = written s /\ more_data s' = more_data s /\
  clock s <= clock s'.
Proof.
  unfold read. destruct (pending s) as [|[lat txt|lat e] rest].
  - intros [= _ <-]. cbn. repeat split. lia.
  - destruct (String.length txt <=? n)%nat; intros [= _ <-]; cbn;
      repeat split; lia.
  - intros [= _ <-]. cbn. repeat split. lia.
Qed.

Lemma steps_read n : steps [] 0 false (read n).
Proof.
  apply steps_quiet. intros s r s' E.
  destruct (read_quiet _ _ _ _ E) as (W & Mo & T). repeat split; auto. lia.
Qed.

Lemma read_until_quiet text sleep_ms retries : forall s r s',
  read_until text retries sleep_ms s = (r, s') ->
  written s' = written s /\ more_data s' = more_data s /\
  clock s <= clock s'.
Proof.
  induction retries as [|n IH]; intros s r s'.
  - intros [= _ <-]. repeat split. lia.
  - cbn [read_until]. rewrite bind_unfold.
    destruct (read 1024 s) as [[chunk|e] s1] eqn:E;
      destruct (read_quiet _ _ _ _ E) as (W & Mo & T).
    + destruct (Py.endswith chunk text).
      * intros [= _ <-]. auto.
      * rewrite bind_unfold. cbn [sleep]. intros H.
        destruct (IH _ _ _ H) as (W' & Mo' & T'). cbn in W', Mo', T'.
        repeat split; try congruence. lia.
    + intros [= _ <-]. auto.
Qed.

Lemma steps_read_until text retries sleep_ms :
  steps [] 0 false (read_until text retries sleep_ms).
Proof.
  apply steps_quiet. intros s r s' E.
  destruct (read_until_quiet _ _ _ _ _ _ E) as (W & Mo & T).
  repeat split; auto. lia.
Qed.

Lemma steps_write text : steps [text] 0 false (write text).
Proof.
  intros s r s' [= <- <-]. split; [|split].
  - exists [text], []. now repeat split.
  - intros _. cbn. lia.
  - intros _. reflexivity.
Qed.

Lemma steps_assign_more_data v : steps [] 0 true (assign_more_data v).
Proof.
  intros s r s' [= <- <-]. split; [|split].
  - exists [], []. split; [reflexivity|]. split; [|reflexivity].
    cbn. now rewrite app_nil_r.
  - intros _. cbn. lia.
  - intros [H|H]; discriminate H.
Qed.

Lemma steps_dialogue username password :
  steps (script username password) 2000 true (dialogue username password).
Proof.
  unfold dialogue.
  change (script username password) with
    ([] ++ [] ++ [] ++ [username +:+ CRLF] ++ [] ++ [] ++ []
     ++ [password +:+ CRLF] ++ [] ++ [] ++ ["vdsl status" +:+ CRLF] ++ []
     ++ [] ++ [] ++ ["vdsl status more" +:+ CRLF] ++ [] ++ [] ++ []).
  change 2000 with
    (0 + (0 + (0 + (0 + (0 + (0 + (0 + (0 + (0 + (0 + (0 + (1000 +
     (0 + (0 + (0 + (1000 + (0 + 0))))))))))))))))).
  repeat (apply steps_bind; [|intros ?]);
    first [ apply steps_logging | apply steps_read_until | apply steps_write
          | apply steps_sleep | apply steps_read | apply steps_assign_data
          | apply steps_assign_more_data ].
Qed.

(** ** The coroutine as a whole *)

Lemma get_vigor_stats_unfold username password s :
  get_vigor_stats username password s =
  match dialogue username password (entered s) with
  | (Ok _, s1) => (parse ≫= print) s1
  | (Raise e, s1) =>
      if is_Exception e then (parse ≫= print) (handled s1)
      else (Raise e, s1)
  end.
Proof.
  unfold get_vigor_stats, entered, handled. rewrite bind_unfold.
  cbn [new_frame snd]. rewrite bind_unfold. cbn [assign_data snd].
  rewrite bind_unfold. unfold try_except at 1.
  destruct (dialogue username password _) as [[[]|e] s1]; [reflexivity|].
  destruct (is_Exception e); reflexivity.
Qed.

Lemma parse_print_cases s r s' :
  (parse ≫= print) s = (r, s') ->
  (exists out s2, parse s = (Ok out, s2) /\ r = Ok () /\
     stdout s' = stdout s ++ [out] /\ written s' = written s /\
     clock s' = clock s) \/
  (exists e, parse s = (Raise e, s') /\ r = Raise e).
Proof.
  rewrite bind_unfold. destruct (parse s) as [[out|e] s2] eqn:E.
  - intros [= <- <-]. left. exists out, s2.
    destruct (parse_keeps _ _ _ E) as (_ & Hc & Hw & _ & Ho & _).
    cbn. rewrite Ho, Hw, Hc. auto.
  - intros [= <- <-]. right. now exists e.
Qed.

(** What [parse] can raise, and on what. *)
Lemma parse_raise_kinds s e s' :
  parse s = (Raise e, s') ->
  (data s = None /\ e = TypeError) \/
  (is_Some (data s) /\ more_data s = None /\
   (e = UnboundLocalError \/ e = ValueError)) \/
  (is_Some (data s) /\ is_Some (more_data s) /\ e = ValueError).
Proof.
  destruct (data s) as [basic|] eqn:Hd.
  2:{ unfold parse. rewrite bind_unfold. cbn [local_data]. rewrite Hd.
      rewrite bind_unfold. cbn [len raise]. intros [= <- _]. now left. }
  destruct (more_data s) as [more|] eqn:Hm.
  - intros H. right. right. repeat split; eauto.
    destruct (parse_bad_number basic more s Hd Hm) as [Hk _].
    apply Hk. now rewrite H.
  - intros H. right. left. split; [eauto|]. split; [reflexivity|].
    revert H. unfold parse. rewrite bind_unfold. cbn [local_data]. rewrite Hd.
    rewrite bind_unfold. cbn [len mret M_ret]. rewrite bind_unfold.
    cbn [logging]. rewrite bind_unfold.
    match goal with
    | |- context [for_each (basic_field basic) _ _ ?s1] =>
        destruct (for_each (basic_field basic) VIGOR_130_VALUES ∅ s1)
          as [[out0|e0] s2] eqn:E1;
        pose proof (for_each_basic_locals _ _ _ _ _ _ E1) as Hl; cbn in Hl
    end.
    + rewrite bind_unfold. unfold local_more_data at 1. rewrite Hl, Hm.
      intros [= <- _]. now left.
    + intros [= <- _]. right.
      now destruct (for_each_basic_raise _ _ _ _ _ _ E1).
Qed.

Lemma dialogue_frame username password s r s1 :
  dialogue username password (entered s) = (r, s1) ->
  stdout s1 = stdout s /\
  (is_Ok r = false -> more_data s1 = None) /\
  (is_Ok r = true -> clock s + 2000 <= clock s1) /\
  exists sent rest,
    script username password = sent ++ rest /\
    written s1 = written s ++ sent /\ (is_Ok r = true -> rest = []).
Proof.
  intros E.
  destruct (steps_dialogue username password _ _ _ E) as (Hw & Ht & Hm).
  split; [exact (silent_dialogue _ _ _ _ _ E)|].
  split; [intros Hr; apply Hm; now left|]. split; [exact Ht|exact Hw].
Qed.

(** X9. Whatever the peer does, what the coroutine has sent when it ends
    is the beginning of one fixed script: the user name, the password,
    [vdsl status], [vdsl status more], each followed by CR LF. When it
    returns, it has sent all four. *)
Theorem sent_follows_script username password s r s' :
  get_vigor_stats username password s = (r, s') ->
  exists sent rest,
    script username password = sent ++ rest /\
    written s' = written s ++ sent /\
    (is_Ok r = true -> rest = []).
Proof.
  rewrite get_vigor_stats_unfold.
  destruct (dialogue username password (entered s)) as [[[]|e] s1] eqn:E;
    destruct (dialogue_frame _ _ _ _ _ E)
      as (_ & Hm & _ & sent & rest & Hs & Hw & Hr).
  - intros H. exists sent, rest. split; [exact Hs|].
    split; [|intros _; exact (Hr eq_refl)].
    destruct (parse_print_cases _ _ _ H)
      as [(out & s2 & _ & _ & _ & W & _)|(e & Hp & _)].
    + congruence.
    + destruct (parse_keeps _ _ _ Hp) as (_ & _ & W & _). congruence.
  - destruct (is_Exception e).
    + intros H. exists sent, rest. split; [exact Hs|].
      destruct (parse_print_cases _ _ _ H)
        as [(out & s2 & Hp & _ & _ & W & _)|(e' & Hp & ->)].
      * apply parse_inv in Hp
          as (b & m & _ & _ & _ & _ & _ & Hmore & _).
        cbn in Hmore. rewrite (Hm eq_refl) in Hmore. discriminate Hmore.
      * destruct (parse_keeps _ _ _ Hp) as (_ & _ & W & _).
        cbn in W. split; [congruence|discriminate].
    + intros [= <- <-]. exists sent, rest.
      split; [exact Hs|]. split; [exact Hw|discriminate].
Qed.

Lemma sent_follows_script_witness :
  written (snd (get_vigor_stats "admin" "secret" (connected mute_peer)))
    = script "admin" "secret" /\
  written (snd (get_vigor_stats "admin" "secret"
                  (connected [Recv 20 "Account:"])))
    = ["admin" +:+ CRLF].
Proof.
  split.
  - destruct (get_vigor_stats "admin" "secret" (connected mute_peer))
      as [r s'] eqn:E.
    assert (Hok : is_Ok r = true).
    { change r with (fst (r, s')). rewrite <- E. vm_compute. reflexivity. }
    destruct (sent_follows_script _ _ _ _ _ E) as (sent & rest & Hs & Hw & Hr).
    rewrite (Hr Hok), app_nil_r in Hs. cbn [snd]. rewrite Hw, <- Hs.
    reflexivity.
  - vm_compute. reflexivity.
Defined.

(** How a run of the coroutine can fail. *)
Lemma raise_kinds username password s e s' :
  get_vigor_stats username password s = (Raise e, s') ->
  stdout s' = stdout s /\
  (e = TypeError \/ e = UnboundLocalError \/ e = ValueError \/
   is_Exception e = false).
Proof.
  rewrite get_vigor_stats_unfold.
  destruct (dialogue username password (entered s)) as [[[]|e0] s1] eqn:E;
    destruct (dialogue_frame _ _ _ _ _ E) as (Ho & _).
  - intros H. destruct (parse_print_cases _ _ _ H)
      as [(out & s2 & _ & Hr & _)|(e' & Hp & [= <-])]; [discriminate Hr|].
    rewrite (silent_parse _ _ _ Hp). split; [exact Ho|].
    destruct (parse_raise_kinds _ _ _ Hp)
      as [[_ ->]|[(_ & _ & [->| ->])|(_ & _ & ->)]]; auto.
  - destruct (is_Exception e0) eqn:He.
    + intros H. destruct (parse_print_cases _ _ _ H)
        as [(out & s2 & _ & Hr & _)|(e' & Hp & [= <-])]; [discriminate Hr|].
      rewrite (silent_parse _ _ _ Hp). split; [exact Ho|].
      destruct (parse_raise_kinds _ _ _ Hp)
        as [[_ ->]|[(_ & _ & [->| ->])|(_ & _ & ->)]]; auto.
    + intros [= <- <-]. split; [exact Ho|]. auto.
Qed.

(** X10. A run that raises has printed nothing, and what it raises is
    [TypeError], [UnboundLocalError] or [ValueError] from the parsing code,
    or else an exception that [except Exception] does not catch. *)
Theorem failure_kinds username password s e s' :
  get_vigor_stats username password s = (Raise e, s') ->
  stdout s' = stdout s /\
  (e = TypeError \/ e = UnboundLocalError \/ e = ValueError \/
   is_Exception e = false).
Proof. exact (raise_kinds username password s e s'). Qed.

Lemma failure_kinds_witness :
  stdout (snd (get_vigor_stats "admin" "admin" (connected reset_peer))) = [] /\
  (UnboundLocalError = TypeError \/ UnboundLocalError = UnboundLocalError \/
   UnboundLocalError = ValueError \/ is_Exception UnboundLocalError = false).
Proof.
  destruct (get_vigor_stats "admin" "admin" (connected reset_peer))
    as [r s'] eqn:E.
  assert (Hr : r = Raise UnboundLocalError).
  { change r with (fst (r, s')). rewrite <- E. vm_compute. reflexivity. }
  subst r.
  exact (failure_kinds "admin" "admin" (connected reset_peer)
           UnboundLocalError s' E).
Defined.

(** X11. When the [try] block fails, no record is printed. If the
    exception is one that [except Exception] catches, the coroutine goes on
    into the parsing code and ends there, with [TypeError] when no blob had
    been read yet and with [UnboundLocalError] or [ValueError] otherwise;
    if it is not, the coroutine ends with that exception. *)
Theorem failed_dialogue_never_prints username password s e s1 :
  dialogue username password (entered s) = (Raise e, s1) ->
  exists e' s',
    get_vigor_stats username password s = (Raise e', s') /\
    stdout s' = stdout s /\
    (if is_Exception e
     then (data s1 = None -> e' = TypeError) /\
          (is_Some (data s1) -> e' = UnboundLocalError \/ e' = ValueError)
     else e' = e /\ s' = s1).
Proof.
  intros E. rewrite get_vigor_stats_unfold, E.
  destruct (dialogue_frame _ _ _ _ _ E) as (Ho & Hm & _).
  specialize (Hm eq_refl).
  destruct (is_Exception e); [|now exists e, s1].
  destruct ((parse ≫= print) (handled s1)) as [r s'] eqn:H.
  destruct (parse_print_cases _ _ _ H)
    as [(out & s2 & Hp & _)|(e' & Hp & ->)].
  - apply parse_inv in Hp as (b & m & _ & _ & _ & _ & _ & Hmore & _).
    cbn in Hmore. congruence.
  - exists e', s'. split; [reflexivity|].
    split; [now rewrite (silent_parse _ _ _ Hp)|].
    destruct (parse_raise_kinds _ _ _ Hp)
      as [[Hd ->]|[(Hd & _ & He)|(_ & [m Hm'] & _)]]; cbn in *.
    + split; [reflexivity|]. intros [d Hd']. congruence.
    + split; [|now intros _]. intros Hn. destruct Hd as [d Hd]. congruence.
    + congruence.
Qed.

Lemma failed_dialogue_never_prints_witness :
  exists e' s',
    get_vigor_stats "admin" "admin" (connected []) = (Raise e', s') /\
    stdout s' = [] /\ e' = TypeError.
Proof.
  destruct (dialogue "admin" "admin" (entered (connected []))) as [r s1] eqn:E.
  assert (Hr : r = Raise (Exception "Did not find expected text")).
  { change r with (fst (r, s1)). rewrite <- E. vm_compute. reflexivity. }
  assert (Hd : data s1 = None).
  { change s1 with (snd (r, s1)). rewrite <- E. vm_compute. reflexivity. }
  subst r.
  destruct (failed_dialogue_never_prints "admin" "admin" (connected []) _ s1 E)
    as (e' & s' & Hrun & Ho & Hk).
  exists e', s'. split; [exact Hrun|]. split; [exact Ho|].
  cbn in Hk. now apply Hk.
Defined.

(** X12. A run that returns has lasted at least two seconds: the two
    pauses after the commands are always taken. *)
Theorem run_takes_two_seconds username password s s' :
  get_vigor_stats username password s = (Ok (), s') ->
  clock s + 2000 <= clock s'.
Proof.
  rewrite get_vigor_stats_unfold.
  destruct (dialogue username password (entered s)) as [[[]|e] s1] eqn:E;
    destruct (dialogue_frame _ _ _ _ _ E) as (_ & Hm & Ht & _).
  - intros H. destruct (parse_print_cases _ _ _ H)
      as [(out & s2 & _ & _ & _ & _ & C)|(e & _ & Hr)]; [|discriminate Hr].
    rewrite C. now apply Ht.
  - destruct (is_Exception e); [|discriminate].
    intros H. destruct (parse_print_cases _ _ _ H)
      as [(out & s2 & Hp & _)|(e' & _ & Hr)]; [|discriminate Hr].
    apply parse_inv in Hp as (b & m & _ & _ & _ & _ & _ & Hmore & _).
    cbn in Hmore. rewrite (Hm eq_refl) in Hmore. discriminate Hmore.
Qed.

Lemma run_takes_two_seconds_witness :
  2000 <= clock (snd (get_vigor_stats "admin" "admin" (connected mute_peer))).
Proof.
  destruct (get_vigor_stats "admin" "admin" (connected mute_peer))
    as [r s'] eqn:E.
  assert (Hok : is_Ok r = true).
  { change r with (fst (r, s')). rewrite <- E. vm_compute. reflexivity. }
  destruct r as [[]|e]; [|discriminate Hok].
  exact (run_takes_two_seconds "admin" "admin" (connected mute_peer) s' E).
Defined.

(** ** What is logged *)

Lemma plain_unchanged {A} (m : M A) :
  (forall s r s', m s = (r, s') -> log s' = log s) ->
  inv_keeps plain_log m.
Proof.
  intros H s r s' HI E. unfold plain_log. now rewrite (H _ _ _ E).
Qed.

Lemma plain_logging l msg args :
  (forall a, In (ArgStr a) args -> In a schema_labels) ->
  inv_keeps plain_log (logging l msg args).
Proof.
  intros Hargs s r s' HI [= _ <-]. unfold plain_log. cbn [log].
  apply Forall_app. split; [exact HI|].
  constructor; [exact Hargs|constructor].
Qed.

Lemma plain_read n : inv_keeps plain_log (read n).
Proof.
  apply plain_unchanged. intros s r s'. unfold read.
  destruct (pending s) as [|[lat txt|lat e] rest].
  - now intros [= _ <-].
  - destruct (String.length txt <=? n)%nat; now intros [= _ <-].
  - now intros [= _ <-].
Qed.

Lemma plain_sleep ms : inv_keeps plain_log (sleep ms).
Proof. apply plain_unchanged. now intros s r s' [= _ <-]. Qed.

Lemma plain_write t : inv_keeps plain_log (write t).
Proof. apply plain_unchanged. now intros s r s' [= _ <-]. Qed.

Lemma plain_read_until text retries sleep_ms :
  inv_keeps plain_log (read_until text retries sleep_ms).
Proof.
  induction retries as [|n IH]; cbn [read_until]; [apply inv_raise|].
  apply inv_bind; [apply plain_read|]. intros chunk.
  destruct (Py.endswith chunk text); [apply inv_ret|].
  apply inv_bind; [apply plain_sleep|]. intros _. exact IH.
Qed.

Lemma plain_dialogue username password :
  inv_keeps plain_log (dialogue username password).
Proof.
  unfold dialogue.
  repeat first
    [ apply plain_read_until
    | apply plain_read
    | apply plain_sleep
    | apply plain_write
    | apply plain_logging; now intros ? []
    | apply plain_unchanged; now intros s r s' [= _ <-]
    | apply inv_bind; [|intros ?] ].
Qed.

(** X13. The coroutine never logs what it was given as user name or
    password: every string that goes into a log record as an argument is a
    label of one of the two tables. *)
Theorem credentials_not_logged username password peer r s' :
  get_vigor_stats username password (connected peer) = (r, s') ->
  forall rec a, In rec (log s') -> In (ArgStr a) (snd rec) ->
    In a schema_labels.
Proof.
  intros E rec a Hrec Ha.
  assert (H0 : plain_log (connected peer)) by constructor.
  assert (HI : plain_log s').
  { assert (Hk : inv_keeps plain_log (get_vigor_stats username password));
      [|exact (Hk _ _ _ H0 E)].
    unfold get_vigor_stats.
    apply inv_bind; [apply plain_unchanged; now intros s r0 s0 [= _ <-]|].
    intros _.
    apply inv_bind; [apply plain_unchanged; now intros s r0 s0 [= _ <-]|].
    intros _.
    apply inv_bind.
    { apply inv_try_except; [apply plain_dialogue|].
      apply plain_logging. now intros b []. }
    intros _. apply inv_bind.
    - apply inv_parse.
      + intros msg n. apply plain_logging. intros b [Hb|[]]. discriminate Hb.
      + intros msg v Hv. apply plain_logging. intros b [[= <-]|[]].
        apply (in_map label). now apply list_elem_of_In.
    - intros out. apply plain_unchanged. now intros s r0 s0 [= _ <-]. }
  unfold plain_log in HI. rewrite List.Forall_forall in HI.
  exact (HI rec Hrec a Ha).
Qed.

Lemma credentials_not_logged_witness : In "Xdsl Reset Times" schema_labels.
Proof.
  destruct (get_vigor_stats "admin" "secret" (connected mute_peer))
    as [r s'] eqn:E.
  apply (credentials_not_logged "admin" "secret" mute_peer r s' E
           (not_found (counter "Xdsl Reset Times"))).
  - change s' with (snd (r, s')). rewrite <- E. vm_compute. tauto.
  - now left.
Defined.

(** ** [read_until], whatever its result *)

Lemma read_step n s r s1 :
  read n s = (r, s1) ->
  clock s <= clock s1 /\
  match r with
  | Ok chunk => heard s1 = heard s ++ [chunk]
  | Raise _ => heard s1 = heard s
  end.
Proof.
  unfold read. destruct (pending s) as [|[lat txt|lat e] rest].
  - intros [= <- <-]. cbn. split; [lia|reflexivity].
  - destruct (String.length txt <=? n)%nat; intros [= <- <-]; cbn;
      (split; [lia|reflexivity]).
  - intros [= <- <-]. cbn. split; [lia|reflexivity].
Qed.

(** X14. [read_until] makes at most [retries] reads. When it raises, none
    of the texts it read ended with the marker, and it has slept
    [sleep_ms] after each of them. *)
Theorem read_until_bounded text sleep_ms retries : forall s r s',
  read_until text retries sleep_ms s = (r, s') ->
  exists chunks,
    heard s' = heard s ++ chunks /\
    (length chunks <= retries)%nat /\
    (is_Ok r = false ->
       Forall (fun chunk => Py.endswith chunk text = false) chunks /\
       clock s + N.of_nat (length chunks) * sleep_ms <= clock s').
Proof.
  induction retries as [|n IH]; intros s r s'.
  - intros [= <- <-]. exists []. rewrite app_nil_r.
    split; [reflexivity|]. split; [simpl; lia|]. intros _.
    split; [constructor|cbn; lia].
  - cbn [read_until]. rewrite bind_unfold.
    destruct (read 1024 s) as [[chunk|e] s1] eqn:E;
      destruct (read_step _ _ _ _ E) as [Hc Hh].
    + destruct (Py.endswith chunk text) eqn:Hend.
      * intros [= <- <-]. exists [chunk].
        split; [exact Hh|]. split; [simpl; lia|discriminate].
      * rewrite bind_unfold. cbn [sleep]. intros H.
        destruct (IH _ _ _ H) as (chunks & Hh' & Hlen & Hfail).
        cbn [heard tick] in Hh'. exists (chunk :: chunks).
        split; [rewrite Hh', Hh, <- app_assoc; reflexivity|].
        split; [simpl; lia|]. intros Hr.
        destruct (Hfail Hr) as [Hall Ht]. split; [now constructor|].
        cbn [clock tick] in Ht. cbn [length]. lia.
    + intros [= <- <-]. exists []. rewrite app_nil_r.
      split; [exact Hh|]. split; [simpl; lia|]. intros _.
      split; [constructor|]. cbn. lia.
Qed.

Lemma read_until_bounded_witness :
  exists chunks,
    heard (snd (read_until "Account:" default_retries default_sleep
                  (connected split_peer))) = [] ++ chunks /\
    (length chunks <= default_retries)%nat /\
    Forall (fun chunk => Py.endswith chunk "Account:" = false) chunks /\
    0 + N.of_nat (length chunks) * default_sleep
      <= clock (snd (read_until "Account:" default_retries default_sleep
                       (connected split_peer))).
Proof.
  destruct (read_until "Account:" default_retries default_sleep
              (connected split_peer)) as [r s'] eqn:E.
  assert (Hr : is_Ok r = false).
  { change r with (fst (r, s')). rewrite <- E. vm_compute. reflexivity. }
  destruct (read_until_bounded _ _ _ _ _ _ E) as (chunks & Hh & Hl & Hf).
  exists chunks. split; [exact Hh|]. split; [exact Hl|]. exact (Hf Hr).
Defined.

Lemma endswith_empty_string text :
  text <> EmptyString -> Py.endswith EmptyString text = false.
Proof. intros H. destruct text; [now destruct H|reflexivity]. Qed.

(** X15. Once the peer has closed, every [read] answers the empty string
    at once, and [read_until] with a marker that is not empty does not
    notice: it reads and sleeps [retries] times, so it gives up after
    exactly [retries] times [sleep_ms], with the exception "Did not find
    expected text". *)
Theorem read_until_closed text sleep_ms retries : forall s,
  pending s = [] -> text <> EmptyString ->
  exists s',
    read_until text retries sleep_ms s
      = (Raise (Exception "Did not find expected text"), s') /\
    clock s' = clock s + N.of_nat retries * sleep_ms /\
    heard s' = heard s ++ repeat EmptyString retries /\
    pending s' = [].
Proof.
  induction retries as [|n IH]; intros s Hp Ht.
  - exists s. split; [reflexivity|]. cbn [repeat]. rewrite app_nil_r.
    split; [cbn; lia|]. split; [reflexivity|exact Hp].
  - cbn [read_until]. rewrite bind_unfold. unfold read at 1. rewrite Hp.
    rewrite (endswith_empty_string text Ht). rewrite bind_unfold.
    cbn [sleep].
    destruct (IH (tick sleep_ms (hear EmptyString s)) Hp Ht)
      as (s' & -> & Hc & Hh & Hp').
    exists s'. split; [reflexivity|]. split; [|split; [|exact Hp']].
    + rewrite Hc. cbn [clock tick hear]. lia.
    + rewrite Hh. cbn [heard tick hear repeat]. now rewrite <- app_assoc.
Qed.

Lemma read_until_closed_witness :
  exists s',
    read_until "Account:" default_retries default_sleep (connected [])
      = (Raise (Exception "Did not find expected text"), s') /\
    clock s' = 1000.
Proof.
  destruct (read_until_closed "Account:" default_sleep default_retries
              (connected []) eq_refl)
    as (s' & E & Hc & _); [discriminate|].
  exists s'. split; [exact E|]. rewrite Hc. reflexivity.
Defined.

(** ** The exit status of [main] *)




(** X16. Whichever exceptions the event loop raises again in [main]: after
    a connection was set up [main] ends with status 0 or 1, and with
    status 1 exactly when the coroutine raised an exception other than
    [KeyboardInterrupt] that the loop raises again. If the loop keeps
    whatever the coroutine raised, the status is 0 and [main] adds nothing
    to what the coroutine left: nothing is logged for the failure beyond
    the coroutine's own entries. *)
Theorem main_status_after_connect reraised ip username password peer :
  let run := get_vigor_stats username password (connected peer) in
  let f := main reraised ip username password (Connects peer) in
  (exit_status f = 0%Z \/ exit_status f = 1%Z) /\
  (exit_status f = 1%Z <->
   exists e, fst run = Raise e /\ reraised e = true /\
             e <> KeyboardInterrupt) /\
  ((forall e, fst run = Raise e -> reraised e = false) ->
   exit_status f = 0%Z /\ final f = snd run).
Proof.
  cbv zeta. cbn [main].
  destruct (get_vigor_stats username password (connected peer))
    as [[[]|e] s'] eqn:E; cbn [fst snd].
  - split; [now left|]. split; [|now intros _].
    split; [discriminate|]. now intros (e & He & _).
  - destruct (raise_kinds _ _ _ _ _ E) as [_ Hk].
    destruct (reraised e) eqn:Hr.
    + split; [|split].
      * destruct e; cbn; auto.
      * split.
        -- intros H. exists e. split; [reflexivity|]. split; [exact Hr|].
           intros ->. discriminate H.
        -- intros (e' & [= <-] & _ & Hne).
           destruct e; cbn in *; try reflexivity; try congruence.
           destruct Hk as [?|[?|[?|?]]]; discriminate.
      * intros H. specialize (H e eq_refl). congruence.
    + cbn. split; [now left|]. split; [|now intros _].
      split; [discriminate|]. intros (e' & [= <-] & He & _). congruence.
Qed.

Lemma main_status_after_connect_witness :
  let run := get_vigor_stats "admin" "admin" (connected reset_peer) in
  let f := main not_reraised "192.168.2.1" "admin" "admin"
             (Connects reset_peer) in
  exit_status f = 0%Z /\ final f = snd run.
Proof.
  cbv zeta.
  apply (proj2 (proj2 (main_status_after_connect not_reraised "192.168.2.1"
                         "admin" "admin" reset_peer))).
  intros e _. reflexivity.
Defined.

(** ** The shape of a key *)

Lemma no_space_not_contained s :
  Py.forall_chars not_space s = true -> Py.contains s " " = false.
Proof.
  induction s as [|c s IH]; [reflexivity|].
  simpl Py.forall_chars. intros [Hc Hs]%andb_true_iff.
  rewrite contains_cons, startswith_cons, startswith_nil, andb_true_r.
  rewrite (IH Hs), orb_false_r. unfold not_space in Hc.
  apply negb_true_iff in Hc. now rewrite Ascii.eqb_sym.
Qed.

(** X17. Whatever the text, a key made from it, by either normalizer, has
    no space in it and is left unchanged by [lower]. *)
Theorem key_shape text :
  (Py.contains (label_key text) " " = false /\
   Py.lower (label_key text) = label_key text) /\
  (Py.contains (desc_key text) " " = false /\
   Py.lower (desc_key text) = desc_key text).
Proof.
  assert (Hsplit : forall s, Py.forall_chars key_char s = true ->
            Py.contains s " " = false /\ Py.lower s = s).
  { intros s H. split.
    - apply no_space_not_contained. revert H. apply forall_chars_impl.
      unfold key_char. now intros c [_ ?]%andb_true_iff.
    - apply lower_of_fixed. revert H. apply forall_chars_impl.
      unfold key_char. now intros c [? _]%andb_true_iff. }
  split.
  - exact (Hsplit _ (label_key_chars text)).
  - exact (Hsplit _ (desc_key_chars text)).
Qed.

(** ** The keys of the two tables *)

(** X18. No two entries of the tables store under the same key: the 19
    keys of the first table and the 48 [_near] and [_far] keys of the
    second are 67 different strings, so no field overwrites another. *)
Theorem schema_keys_distinct :
  List.NoDup schema_keys /\ length schema_keys = 67%nat.
Proof.
  split; [|reflexivity].
  apply (NoDup_ListNoDup schema_keys).
  apply (bool_decide_unpack _). vm_compute. exact I.
Qed.
